(** * gocover-html: coverage statistics and report assembly

    A shallow embedding of [html.go]: the per-file coverage calculator
    ([percentCovered]), the aggregate ([totalCoverage]), the uncovered-range
    extractor ([htmlGen] with [removeArrayDuplicates]) and the report
    assembler ([getTemplateData]).

    Go's [int] and [int64] are 64-bit two's complement integers, modelled by
    [Z] with the wrap-around written out.  Go's [float64] is IEEE 754
    binary64, modelled by Rocq's primitive floats, which are the same format
    with the same rounding (to nearest, ties to even). *)

From Stdlib Require Import ZArith Lia String Ascii List Floats.
From stdpp Require Import base list strings gmap pretty.

Local Open Scope Z_scope.

(** ** Machine integers *)

Module Int64.

Definition min_int : Z := - 2 ^ 63.
Definition max_int : Z := 2 ^ 63 - 1.

Definition in_range (z : Z) : Prop := min_int <= z <= max_int.

(** The value of a mathematical integer once stored in an [int64]. *)
Definition wrap (z : Z) : Z := (z + 2 ^ 63) mod 2 ^ 64 - 2 ^ 63.

(** [a + b] on [int64]. *)
Definition add (a b : Z) : Z := wrap (a + b).

End Int64.

(** ** Floating point *)

Module Float64.

(** The conversion [float64(x)] of an [int64]: the binary64 number nearest
    to [x], ties to even.  [of_uint63] is that conversion on the 63-bit
    naturals; the sign is put back afterwards, and [-2^63], whose opposite
    is not a 63-bit natural, is a power of two and converts exactly. *)
Definition of_int64 (z : Z) : float :=
  if z =? Int64.min_int then (- (of_uint63 (Uint63.of_Z (2 ^ 62)) * 2))%float
  else if z <? 0 then (- of_uint63 (Uint63.of_Z (- z)))%float
  else of_uint63 (Uint63.of_Z z).

(** The binary64 number nearest to an integer of any size, ties to even,
    as IEEE 754 specifies the conversion. *)
Definition of_Z (z : Z) : float := SF2Prim (binary_normalize prec emax z 0 false).

End Float64.

(** ** The profile model (package [golang.org/x/tools/cover]) *)

Module cover.

(** Modelled from the spec: the declaration of [cover.ProfileBlock] is in
    the imported package, not in this repository.  The fields are the ones
    [html.go] reads; all are Go [int]s. *)
Record ProfileBlock : Type := mkBlock {
  StartLine : Z;
  StartCol : Z;
  EndLine : Z;
  EndCol : Z;
  NumStmt : Z;
  Count : Z
}.

(** Modelled from the spec: the declaration of [cover.Profile] is in the
    imported package as well. *)
Record Profile : Type := mkProfile {
  FileName : string;
  Mode : string;
  Blocks : list ProfileBlock
}.

End cover.

Import cover.

(** ** The report model *)

Record templateFile : Type := mkFile {
  Name : string;
  Body : string;
  Coverage : float;
  ID : Z
}.

(** The field [Set] of the source is [Set_] here, [Set] being reserved. *)
Record templateData : Type := mkData {
  Files : list templateFile;
  Set_ : bool
}.

(** Go's [error] values, as far as this file produces them: errors of the
    collaborators, and the one [findFile] wraps with [fmt.Errorf]. *)
Inductive error : Type :=
| ExternalError (msg : string)
| CantFind (file : string) (cause : error).

(** ** removeArrayDuplicates *)

(** A Go map is iterated in an order the runtime chooses, and the order may
    change from one [range] loop to the next.  An iteration order is taken as
    an argument wherever a map is ranged over; it is an admissible one when it
    visits every key of the map exactly once. *)
Definition RangeOrder : Type := gmap string bool → list string.

Definition keys_of (enc : gmap string bool) : list string := (map_to_list enc).*1.

Class Admissible (order : RangeOrder) : Prop :=
  admissible : ∀ enc, order enc ≡ₚ keys_of enc.

(** The order of the keys in [map_to_list]. *)
Definition canonical_order : RangeOrder := keys_of.

(** That order reversed: another admissible choice. *)
Definition reversed_order : RangeOrder := λ enc, reverse (keys_of enc).

(** The first loop: [enc[e[v]] = true] for every index [v]. *)
Definition encode (e : list string) : gmap string bool :=
  foldl (λ enc s, <[s := true]> enc) ∅ e.

(** The second loop appends every key to [res] in iteration order. *)
Definition removeArrayDuplicates (order : RangeOrder) (e : list string) : list string :=
  let enc := encode e in
  foldl (λ res k, res ++ [k]) [] (order enc).

(** ** htmlGen *)

(** [fmt.Sprintf("%d-%d", block.StartLine, block.EndLine)] *)
Definition Sprintf_range (block : ProfileBlock) : string :=
  pretty (StartLine block) +:+ "-" +:+ pretty (EndLine block).

(** The loop over [profile.Blocks]: blocks with a non-zero count are skipped,
    the others append their range. *)
Definition uncoverdLines_loop (blocks : list ProfileBlock) (uncoverdLines : list string)
  : list string :=
  foldl (λ acc block, if Count block =? 0 then acc ++ [Sprintf_range block] else acc)
        uncoverdLines blocks.

(** [strings.Join] *)
Fixpoint Join (elems : list string) (sep : string) : string :=
  match elems with
  | [] => ""
  | [s] => s
  | s :: rest => s +:+ sep +:+ Join rest sep
  end.

Definition dquote : string := String "034"%char "".

(** The format string of [htmlGen], with its two [%s] filled in. *)
Definition html_format (lines src : string) : string :=
  "<pre class=" +:+ dquote +:+ " line-numbers" +:+ dquote +:+
  " data-line=" +:+ dquote +:+ lines +:+ dquote +:+
  "><code class=" +:+ dquote +:+ "language-go" +:+ dquote +:+ ">" +:+
  src +:+ "</code></pre>".

(** The ranges that reach the [data-line] attribute. *)
Definition uncovered_ranges (order : RangeOrder) (profile : Profile) : list string :=
  removeArrayDuplicates order (uncoverdLines_loop (Blocks profile) []).

(** [htmlGen] returns what it has written to [w] together with the error of
    [dst.Flush()].  Its only caller passes a [bytes.Buffer], whose writes do
    not fail. *)
Definition htmlGen (order : RangeOrder) (src : string) (profile : Profile)
  : string * option error :=
  let uncoverdLines := uncovered_ranges order profile in
  (html_format (Join uncoverdLines ",") src, None).

(** ** percentCovered *)

(** One iteration of the loop over [p.Blocks] on the pair [(total, covered)]. *)
Definition percentCovered_step (acc : Z * Z) (b : ProfileBlock) : Z * Z :=
  let '(total, covered) := acc in
  let total := Int64.add total (Int64.wrap (NumStmt b)) in
  let covered :=
    if 0 <? Count b then Int64.add covered (Int64.wrap (NumStmt b)) else covered in
  (total, covered).

Definition percentCovered_loop (blocks : list ProfileBlock) : Z * Z :=
  foldl percentCovered_step (0, 0) blocks.

Definition percentCovered (p : Profile) : float :=
  let '(total, covered) := percentCovered_loop (Blocks p) in
  if total =? 0 then 0%float
  else (Float64.of_int64 covered / Float64.of_int64 total * 100)%float.

(** ** totalCoverage *)

Definition totalCoverage (p : templateData) : float :=
  let x := foldl (λ x v, (x + Coverage v)%float) 0%float (Files p) in
  (x / Float64.of_int64 (Z.of_nat (length (Files p))))%float.

(** ** findFile and getTemplateData *)

Section Assembler.

(** The collaborators: the profile parser, the Go build context, the path
    functions and the file system.  A Go function returning [(T, error)]
    returns a pair whose second component is [None] for [nil]. *)
Variable ParseProfiles : string → list Profile * option error.
Variable filepath_Split : string → string * string.
Variable filepath_Join : string → string → string.
Variable build_Import : string → string * option error.
Variable ReadFile : string → string * option error.

Definition findFile (file : string) : string * option error :=
  let '(dir, file) := filepath_Split file in
  let '(pkg_Dir, err) := build_Import dir in
  match err with
  | Some err => ("", Some (CantFind file err))
  | None => (filepath_Join pkg_Dir file, None)
  end.

(** The iteration order of the map ranged over while the [k]-th file is
    rendered. *)
Variable orders : nat → RangeOrder.

(** The loop [for k, profile := range profiles], from index [k] on. *)
Fixpoint getTemplateData_loop (k : nat) (profiles : list Profile) (d : templateData)
  : templateData * option error :=
  match profiles with
  | [] => (d, None)
  | profile :: rest =>
      let fn := FileName profile in
      let d := if String.eqb (Mode profile) "set" then mkData (Files d) true else d in
      let '(file, err) := findFile fn in
      match err with
      | Some err => (d, Some err)
      | None =>
          let '(src, err) := ReadFile file in
          match err with
          | Some err => (d, Some err)
          | None =>
              let '(buf, err) := htmlGen (orders k) src profile in
              match err with
              | Some err => (d, Some err)
              | None =>
                  let d := mkData (Files d ++ [mkFile fn buf (percentCovered profile)
                                                      (Z.of_nat k)])
                                  (Set_ d) in
                  getTemplateData_loop (S k) rest d
              end
          end
      end
  end.

Definition getTemplateData (profile : string) : templateData * option error :=
  let d := mkData [] false in
  let '(profiles, err) := ParseProfiles profile in
  match err with
  | Some err => (d, Some err)
  | None => getTemplateData_loop 0 profiles d
  end.

End Assembler.

(** * Specification-level sums *)

(** The sums of the specification, over the mathematical integers: the
    statements of all blocks, and the statements of the blocks that were hit. *)
Fixpoint sum_Z (l : list Z) : Z :=
  match l with
  | [] => 0
  | z :: l => z + sum_Z l
  end.

Definition total_stmts (blocks : list ProfileBlock) : Z :=
  sum_Z (NumStmt <$> blocks).

Definition covered_stmts (blocks : list ProfileBlock) : Z :=
  sum_Z (NumStmt <$> filter (λ b, 0 < Count b) blocks).

(** The percentage as the specification writes it, [covered/total * 100],
    on two [int64] counters. *)
Definition percent_of (covered total : Z) : float :=
  (Float64.of_int64 covered / Float64.of_int64 total * 100)%float.

(** The same percentage on integers of any size. *)
Definition percent_exact (covered total : Z) : float :=
  (Float64.of_Z covered / Float64.of_Z total * 100)%float.

(** [p1 + ... + pN], summed from the left, by index. *)
Fixpoint sum_upto (n : nat) (ps : list float) : float :=
  match n with
  | O => 0%float
  | S n => (sum_upto n ps + nth n ps 0)%float
  end.

(** The arithmetic mean of the specification: [(p1 + ... + pN) / N]. *)
Definition mean (ps : list float) : float :=
  (sum_upto (length ps) ps / Float64.of_int64 (Z.of_nat (length ps)))%float.

(** A statement-weighted mean, for comparison: all covered statements over
    all statements, in percent. *)
Definition statement_weighted (profiles : list Profile) : float :=
  percent_of (sum_Z (covered_stmts ∘ Blocks <$> profiles))
             (sum_Z (total_stmts ∘ Blocks <$> profiles)).

(** The closed interval of the specification, with Go's comparisons. *)
Definition in_0_100 (x : float) : bool := ((0 <=? x) && (x <=? 100))%float.

(** The files a run without error appends for [profiles], the first of
    which has index [k]. *)
Definition built (k : nat) (profiles : list Profile) (files : list templateFile) : Prop :=
  length files = length profiles
  ∧ ∀ i p, profiles !! i = Some p →
      ∃ f, files !! i = Some f
           ∧ ID f = Z.of_nat (k + i)
           ∧ Name f = FileName p
           ∧ Coverage f = percentCovered p.

Definition any_set (profiles : list Profile) : bool :=
  existsb (λ p, String.eqb (Mode p) "set") profiles.

(** A concrete run: two files of one package, both found and read. *)
Module Sample.

Definition profiles : list Profile :=
  [mkProfile "pkg/a.go" "set" [mkBlock 1 0 5 0 3 0; mkBlock 6 0 10 0 2 1];
   mkProfile "pkg/b.go" "set" [mkBlock 3 0 4 0 1 1]].

Definition ParseProfiles (profile : string) : list Profile * option error :=
  (profiles, None).
Definition filepath_Split (path : string) : string * string := ("pkg/", path).
Definition filepath_Join (dir file : string) : string := dir +:+ "/" +:+ file.
Definition build_Import (dir : string) : string * option error :=
  ("/go/src/pkg", None).
Definition ReadFile (file : string) : string * option error :=
  ("package pkg", None).
Definition orders (k : nat) : RangeOrder := canonical_order.

Definition report : templateData :=
  (getTemplateData ParseProfiles filepath_Split filepath_Join build_Import ReadFile
                   orders "cover.out").1.

End Sample.

(** * Rounding to nearest, ties to even

    The operations of binary64 are specified in [SpecFloat] by the algorithm
    that shifts a mantissa right and rounds it.  The definitions below say
    what that algorithm computes on a quotient [num/den] of integers. *)

Module Rounding.

(** Where the fraction [r/d] of [[0,1)] lies with respect to one half. *)
Definition loc_frac (r d : Z) : location :=
  if r =? 0 then loc_Exact else loc_Inexact (2 * r ?= d).

(** The truncated quotient [num/den] with the position of what was cut off. *)
Definition rec_of (num den : Z) : shr_record :=
  shr_record_of_loc (num / den) (loc_frac (num mod den) den).

(** The integer nearest to [num/den], the even one of two at equal distance. *)
Definition round_half_even (num den : Z) : Z :=
  let m := num / den in
  match 2 * (num mod den) ?= den with
  | Lt => m
  | Gt => m + 1
  | Eq => if Z.even m then m else m + 1
  end.

(** The result of rounding [N] at exponent [e]: a mantissa of 54 digits is
    [2^53] and moves to the next exponent. *)
Definition renormalize (N e : Z) : spec_float :=
  if N =? 2 ^ 53 then S754_finite false (Z.to_pos (2 ^ 52)) (e + 1)
  else S754_finite false (Z.to_pos N) e.

(** The value of [float64(z)] for [1 <= z < 2^63]. *)
Definition nearest (z : Z) : Z :=
  let n := Z.max 0 (Zdigits2 z - 53) in
  round_half_even z (2 ^ n) * 2 ^ n.

(** A binary64 number in (0, 1]. *)
Definition le_one (m : positive) (e : Z) : Prop :=
  2 ^ 52 <= Z.pos m < 2 ^ 53 ∧ -117 <= e ∧ (e < -52 ∨ e = -52 ∧ Z.pos m = 2 ^ 52).

(** The mantissa of 100: [100 = 25 * 2^48 * 2^-46]. *)
Definition mantissa_100 : positive := Z.to_pos (25 * 2 ^ 48).

(** A binary64 number in (0, 100]. *)
Definition le_hundred (m : positive) (e : Z) : Prop :=
  e < -46 ∨ e = -46 ∧ Z.pos m <= Z.pos mantissa_100.

End Rounding.

(** * The rest of the program: sources, output, [main] *)

(** The line range of a block, which is all that [htmlGen] prints of it. *)
Definition line_range (b : ProfileBlock) : Z * Z := (StartLine b, EndLine b).

Module Decimal.

(** The characters [%d] prints after an optional sign. *)
Definition is_digit (c : ascii) : bool := (Ascii.leb "0" c && Ascii.leb c "9")%bool.

Fixpoint all_digits (s : string) : Prop :=
  match s with
  | EmptyString => True
  | String c s => is_digit c = true ∧ all_digits s
  end.

End Decimal.

Module Binary64.

(** A normal binary64 number of sign [s], that is one with 53 digits of
    mantissa, whose exponent is between [lo] and [hi]. *)
Definition normal (s : bool) (lo hi : Z) (x : spec_float) : Prop :=
  ∃ m e, x = S754_finite s m e ∧ 2 ^ 52 <= Z.pos m < 2 ^ 53 ∧ lo <= e <= hi.

End Binary64.

Section Sources.

Variable filepath_Split : string → string * string.
Variable filepath_Join : string → string → string.
Variable build_Import : string → string * option error.
Variable ReadFile : string → string * option error.
Variable orders : nat → RangeOrder.

(** The source of a profile as the loop of [getTemplateData] gets it: the
    file is located, then read; the first error ends the attempt. *)
Definition load (fn : string) : string * option error :=
  let '(file, err) := findFile filepath_Split filepath_Join build_Import fn in
  match err with
  | Some err => ("", Some err)
  | None => ReadFile file
  end.

(** The entry of the report for the profile at position [k]. *)
Definition file_of (k : nat) (p : Profile) : templateFile :=
  mkFile (FileName p)
         (html_format (Join (uncovered_ranges (orders k) p) ",") (load (FileName p)).1)
         (percentCovered p) (Z.of_nat k).

End Sources.

(** ** Output: effects, panics and exits *)

Module IO.

(** What the program does to the outside world.  Reads are not recorded:
    the file system is asked through [ReadFile] and answers, and it answers
    the same before and after the output file is created (the report is not
    written over a source or an asset). *)
Inductive event : Type :=
| TempDirMade (dir : string)
| Created (name : string)
| Written (name : string) (content : string)
| Closed (name : string)
| Started (name : string) (args : list string)
| Stderr (msg : string)
| Usage.

(** How a Go function ends: it returns, it panics, or the process exits. *)
Inductive outcome (A : Type) : Type :=
| Return (a : A)
| Panic (e : error)
| Exit (code : Z).

Global Arguments Return {A} a.
Global Arguments Panic {A} e.
Global Arguments Exit {A} code.

(** A computation: the events it caused, in order, and how it ended. *)
Definition t (A : Type) : Type := list event * outcome A.

Definition ret {A : Type} (a : A) : t A := ([], Return a).

(** Sequencing: what follows runs only after a return. *)
Definition bind {A B : Type} (m : t A) (k : A → t B) : t B :=
  match m with
  | (ev, Return a) => let '(ev', r) := k a in (ev ++ ev', r)
  | (ev, Panic e) => (ev, Panic e)
  | (ev, Exit code) => (ev, Exit code)
  end.

Definition emit (e : event) : t unit := ([e], Return ()).

Definition events {A : Type} (m : t A) : list event := m.1.

Definition result {A : Type} (m : t A) : outcome A := m.2.

End IO.

Declare Scope io_scope.
Delimit Scope io_scope with io.
Notation "'do' x <- m ; k" := (IO.bind m (λ x, k))
  (at level 20, x name, m at level 100, k at level 200) : io_scope.
Notation "m >> k" := (IO.bind m (λ _, k))
  (at level 100, k at level 200, right associativity) : io_scope.
Local Open Scope io_scope.

(** The constants of [html.go]. *)
Definition HTMLTemplateFile : string := "./res/index.html".
Definition PrismCSS : string := "./res/prism.css".
Definition PrismJS : string := "./res/prism.js".
Definition BootstrapCSS : string := "./res/bootstrap.min.css".
Definition BootstrapJS : string := "./res/bootstrap.min.js".
Definition JQuery : string := "./res/jquery-3.2.1.slim.min.js".
Definition Popper : string := "./res/popper.min.js".

(** The assets, in the order [getTemplate] reads them. *)
Definition asset_files : list string :=
  [PrismCSS; PrismJS; BootstrapCSS; JQuery; BootstrapJS; Popper].

(** The map [tplVals] handed to the template, by key. *)
Record tplVals : Type := mkVals {
  val_prismCSS : string;
  val_bootstrapCSS : string;
  val_prismJS : string;
  val_popper : string;
  val_jq : string;
  val_bootstrapJS : string;
  val_data : templateData;
  val_totalCov : float
}.

(** The events that tell the user where the report is: the browser started
    on it, or the message on standard error. *)
Definition is_notice (ev : IO.event) : bool :=
  match ev with
  | IO.Started _ _ | IO.Stderr _ => true
  | _ => false
  end.

Definition newline : string := String "010"%char "".

Section Output.

Variable ParseProfiles : string → list Profile * option error.
Variable filepath_Split : string → string * string.
Variable filepath_Join : string → string → string.
Variable build_Import : string → string * option error.
Variable ReadFile : string → string * option error.
Variable orders : nat → RangeOrder.

(** [template.ParseFiles]: the error, if the template cannot be parsed. *)
Variable ParseFiles : string → option error.
(** [it.Execute]: what the template writes for these values, and the error. *)
Variable Execute : tplVals → string * option error.
(** [ioutil.TempDir], [os.Create], [Close] of a file, [runtime.GOOS] and
    [Start] of a command. *)
Variable TempDir : string → string → string * option error.
Variable os_Create : string → option error.
Variable Close : string → option error.
Variable GOOS : string.
Variable cmd_Start : string → list string → option error.

(** [buf] is the name of the open file the template is written to.
    [template.Must] panics when the template cannot be parsed. *)
Definition getTemplate (buf : string) (data : templateData) : IO.t (option error) :=
  match ParseFiles HTMLTemplateFile with
  | Some err => ([], IO.Panic err)
  | None =>
      let '(prismCSS, err) := ReadFile PrismCSS in
      match err with Some err => IO.ret (Some err) | None =>
      let '(prismJS, err) := ReadFile PrismJS in
      match err with Some err => IO.ret (Some err) | None =>
      let '(bsCSS, err) := ReadFile BootstrapCSS in
      match err with Some err => IO.ret (Some err) | None =>
      let '(jq, err) := ReadFile JQuery in
      match err with Some err => IO.ret (Some err) | None =>
      let '(bsJS, err) := ReadFile BootstrapJS in
      match err with Some err => IO.ret (Some err) | None =>
      let '(popper, err) := ReadFile Popper in
      match err with Some err => IO.ret (Some err) | None =>
      let tplVals := mkVals prismCSS bsCSS prismJS popper jq bsJS data
                            (totalCoverage data) in
      let '(out, err) := Execute tplVals in
      IO.emit (IO.Written buf out) >> IO.ret err
      end end end end end end
  end.

(** [exec.Command(args[0], append(args[1:], url)...)] and [cmd.Start()]. *)
Definition startBrowser (url : string) : IO.t bool :=
  let args :=
    if String.eqb GOOS "darwin" then ["open"]
    else if String.eqb GOOS "windows" then ["cmd"; "/c"; "start"]
    else ["xdg-open"] in
  let name := hd "" args in
  let arg := tail args ++ [url] in
  match cmd_Start name arg with
  | None => IO.emit (IO.Started name arg) >> IO.ret true
  | Some _ => IO.ret false
  end.

(** An open file is known by the name it was created under, which is what
    [out.Name()] returns. *)
Definition htmlOutput (profile outfile : string) : IO.t (option error) :=
  let '(d, err) :=
    getTemplateData ParseProfiles filepath_Split filepath_Join build_Import
                    ReadFile orders profile in
  match err with Some err => IO.ret (Some err) | None =>
  (* the file created, or the error that ends the function *)
  do created <-
    (if String.eqb outfile "" then
       let '(dir, err) := TempDir "" "cover" in
       match err with Some err => IO.ret (inr err) | None =>
       IO.emit (IO.TempDirMade dir) >>
       let name := filepath_Join dir "coverage.html" in
       match os_Create name with
       | Some err => IO.ret (inr err)
       | None => IO.emit (IO.Created name) >> IO.ret (inl name)
       end end
     else
       match os_Create outfile with
       | Some err => IO.ret (inr err)
       | None => IO.emit (IO.Created outfile) >> IO.ret (inl outfile)
       end) ;
  match created with
  | inr err => IO.ret (Some err)
  | inl out =>
      do err <- getTemplate out d ;
      do err <- match err with
                | None => IO.emit (IO.Closed out) >> IO.ret (Close out)
                | Some err => IO.ret (Some err)
                end ;
      match err with Some err => IO.ret (Some err) | None =>
      (if String.eqb outfile "" then
         do started <- startBrowser ("file://" +:+ out) ;
         if started then IO.ret ()
         else IO.emit (IO.Stderr ("HTML output written to " +:+ out +:+ newline))
       else IO.ret ()) >>
      IO.ret None
      end
  end
  end.

(** [main], after [flag.Parse] has read the two flags. *)
Definition main (profile out : string) : IO.t unit :=
  (if String.eqb profile "" then
     IO.emit IO.Usage >> ([], IO.Exit 1)
   else IO.ret ()) >>
  do err <- htmlOutput profile out ;
  match err with
  | Some err => ([], IO.Panic err)
  | None => IO.ret ()
  end.

(** The file [htmlOutput] writes the report to. *)
Definition out_name (outfile : string) : string :=
  if String.eqb outfile "" then filepath_Join (TempDir "" "cover").1 "coverage.html"
  else outfile.

(** The temporary directory, when one is made. *)
Definition tmp_events (outfile : string) : list IO.event :=
  if String.eqb outfile "" then [IO.TempDirMade (TempDir "" "cover").1] else [].

(** All the runs of [htmlOutput], by the answers of the collaborators. *)
Inductive output_run (profile outfile : string) : IO.t (option error) → Prop :=
| run_data_error d err :
    getTemplateData ParseProfiles filepath_Split filepath_Join build_Import
                    ReadFile orders profile = (d, Some err) →
    output_run profile outfile ([], IO.Return (Some err))
| run_tempdir_error d dir err :
    getTemplateData ParseProfiles filepath_Split filepath_Join build_Import
                    ReadFile orders profile = (d, None) →
    outfile = "" → TempDir "" "cover" = (dir, Some err) →
    output_run profile outfile ([], IO.Return (Some err))
| run_create_error d err :
    getTemplateData ParseProfiles filepath_Split filepath_Join build_Import
                    ReadFile orders profile = (d, None) →
    (outfile = "" → (TempDir "" "cover").2 = None) →
    os_Create (out_name outfile) = Some err →
    output_run profile outfile (tmp_events outfile, IO.Return (Some err))
| run_render d written r :
    getTemplateData ParseProfiles filepath_Split filepath_Join build_Import
                    ReadFile orders profile = (d, None) →
    (outfile = "" → (TempDir "" "cover").2 = None) →
    os_Create (out_name outfile) = None →
    getTemplate (out_name outfile) d = (written, r) →
    r ≠ IO.Return None →
    output_run profile outfile
      (tmp_events outfile ++ IO.Created (out_name outfile) :: written, r)
| run_close_error d content err :
    getTemplateData ParseProfiles filepath_Split filepath_Join build_Import
                    ReadFile orders profile = (d, None) →
    (outfile = "" → (TempDir "" "cover").2 = None) →
    os_Create (out_name outfile) = None →
    getTemplate (out_name outfile) d
    = ([IO.Written (out_name outfile) content], IO.Return None) →
    Close (out_name outfile) = Some err →
    output_run profile outfile
      (tmp_events outfile
       ++ [IO.Created (out_name outfile); IO.Written (out_name outfile) content;
           IO.Closed (out_name outfile)], IO.Return (Some err))
| run_done d content fin :
    getTemplateData ParseProfiles filepath_Split filepath_Join build_Import
                    ReadFile orders profile = (d, None) →
    (outfile = "" → (TempDir "" "cover").2 = None) →
    os_Create (out_name outfile) = None →
    getTemplate (out_name outfile) d
    = ([IO.Written (out_name outfile) content], IO.Return None) →
    Close (out_name outfile) = None →
    fin = (if String.eqb outfile "" then
             match startBrowser ("file://" +:+ out_name outfile) with
             | (started, IO.Return true) => started
             | _ => [IO.Stderr ("HTML output written to " +:+ out_name outfile
                                +:+ newline)]
             end
           else []) →
    output_run profile outfile
      (tmp_events outfile
       ++ [IO.Created (out_name outfile); IO.Written (out_name outfile) content;
           IO.Closed (out_name outfile)] ++ fin, IO.Return None).

End Output.

(** A concrete environment for the output: the assets are read, the template
    renders, the files are created and closed, and the browser starts. *)
Module SampleOutput.

Definition ParseFiles (name : string) : option error := None.
Definition Execute (vals : tplVals) : string * option error := ("<html></html>", None).
Definition TempDir (dir pattern : string) : string * option error :=
  ("/tmp/cover123", None).
Definition os_Create (name : string) : option error := None.
Definition Close (name : string) : option error := None.
Definition GOOS : string := "linux".
Definition cmd_Start (name : string) (args : list string) : option error := None.

(** A file system without [prism.js]. *)
Definition ReadFile_no_prismJS (file : string) : string * option error :=
  if String.eqb file PrismJS then ("", Some (ExternalError "no such file"))
  else ("body {}", None).

(** A build context that does not know the package of [b.go]. *)
Definition filepath_Split_b (path : string) : string * string :=
  if String.eqb path "pkg/b.go" then ("other/", "b.go") else ("pkg/", path).
Definition build_Import_b (dir : string) : string * option error :=
  if String.eqb dir "other/" then ("", Some (ExternalError "cannot find package"))
  else ("/go/src/pkg", None).

(** [htmlOutput] on the sample profile, in this environment. *)
Definition run (outfile : string) : IO.t (option error) :=
  htmlOutput Sample.ParseProfiles Sample.filepath_Split Sample.filepath_Join
             Sample.build_Import Sample.ReadFile Sample.orders
             ParseFiles Execute TempDir os_Create Close GOOS cmd_Start
             "cover.out" outfile.

End SampleOutput.

(** * Properties of the machine integers *)

Module Int64Facts.

Lemma wrap_in_range z : Int64.in_range (Int64.wrap z).
Proof.
  unfold Int64.in_range, Int64.wrap, Int64.min_int, Int64.max_int.
  pose proof (Z.mod_pos_bound (z + 2 ^ 63) (2 ^ 64) ltac:(lia)). lia.
Qed.

Lemma wrap_id z : Int64.in_range z → Int64.wrap z = z.
Proof.
  unfold Int64.in_range, Int64.wrap, Int64.min_int, Int64.max_int. intros Hz.
  rewrite Z.mod_small by lia. lia.
Qed.

Lemma wrap_0 : Int64.wrap 0 = 0.
Proof. reflexivity. Qed.

(** Wrapping is a ring morphism onto the residues: intermediate wraps do
    not change the final one. *)
Lemma wrap_add_l a b : Int64.wrap (Int64.wrap a + b) = Int64.wrap (a + b).
Proof.
  unfold Int64.wrap.
  replace ((a + 2 ^ 63) mod 2 ^ 64 - 2 ^ 63 + b + 2 ^ 63)
    with ((a + 2 ^ 63) mod 2 ^ 64 + b) by lia.
  replace (a + b + 2 ^ 63) with ((a + 2 ^ 63) + b) by lia.
  rewrite Zplus_mod_idemp_l. reflexivity.
Qed.

Lemma wrap_add_r a b : Int64.wrap (a + Int64.wrap b) = Int64.wrap (a + b).
Proof. rewrite (Z.add_comm a), wrap_add_l, (Z.add_comm b). reflexivity. Qed.

Lemma add_wrap a b : Int64.add (Int64.wrap a) (Int64.wrap b) = Int64.wrap (a + b).
Proof. unfold Int64.add. rewrite wrap_add_l, wrap_add_r. reflexivity. Qed.

Lemma wrap_wrap a : Int64.wrap (Int64.wrap a) = Int64.wrap a.
Proof. apply wrap_id, wrap_in_range. Qed.

End Int64Facts.

(** * The counters of percentCovered *)

Section Counters.

Import Int64Facts.

Lemma total_stmts_cons b blocks :
  total_stmts (b :: blocks) = NumStmt b + total_stmts blocks.
Proof. reflexivity. Qed.

Lemma total_stmts_app l1 l2 :
  total_stmts (l1 ++ l2) = total_stmts l1 + total_stmts l2.
Proof.
  induction l1 as [|b l1 IH]; [reflexivity|].
  rewrite <- app_comm_cons, !total_stmts_cons, IH. lia.
Qed.

Lemma covered_stmts_cons b blocks :
  covered_stmts (b :: blocks)
  = (if 0 <? Count b then NumStmt b else 0) + covered_stmts blocks.
Proof.
  unfold covered_stmts. rewrite filter_cons.
  destruct (Z.ltb_spec 0 (Count b)); case_decide; try lia; reflexivity.
Qed.

Lemma covered_stmts_app l1 l2 :
  covered_stmts (l1 ++ l2) = covered_stmts l1 + covered_stmts l2.
Proof.
  induction l1 as [|b l1 IH]; [reflexivity|].
  rewrite <- app_comm_cons, !covered_stmts_cons, IH. lia.
Qed.

(** The loop from any state of the counters: what has been read so far is
    added, modulo [2^64], to what the counters held. *)
Lemma percentCovered_fold blocks t c :
  foldl percentCovered_step (Int64.wrap t, Int64.wrap c) blocks
  = (Int64.wrap (t + total_stmts blocks), Int64.wrap (c + covered_stmts blocks)).
Proof.
  revert t c. induction blocks as [|b blocks IH]; intros t c.
  - cbn. rewrite !Z.add_0_r. reflexivity.
  - cbn [foldl percentCovered_step].
    rewrite total_stmts_cons, covered_stmts_cons.
    destruct (0 <? Count b).
    + rewrite !add_wrap, IH. f_equal; f_equal; lia.
    + rewrite add_wrap, IH. f_equal; f_equal; lia.
Qed.

(** The loop computes the two sums of the specification in [int64]. *)
Lemma percentCovered_loop_spec blocks :
  percentCovered_loop blocks
  = (Int64.wrap (total_stmts blocks), Int64.wrap (covered_stmts blocks)).
Proof.
  unfold percentCovered_loop.
  change (0, 0) with (Int64.wrap 0, Int64.wrap 0).
  rewrite percentCovered_fold. reflexivity.
Qed.

Lemma percentCovered_unfold p :
  percentCovered p
  = if Int64.wrap (total_stmts (Blocks p)) =? 0 then 0%float
    else percent_of (Int64.wrap (covered_stmts (Blocks p)))
                    (Int64.wrap (total_stmts (Blocks p))).
Proof. unfold percentCovered. rewrite percentCovered_loop_spec. reflexivity. Qed.

(** Sums of non-negative statement counts. *)
Lemma covered_le_total blocks :
  Forall (λ b, 0 <= NumStmt b) blocks →
  0 <= covered_stmts blocks <= total_stmts blocks.
Proof.
  induction 1 as [|b blocks Hb _ IH]; [cbn; lia|].
  rewrite total_stmts_cons, covered_stmts_cons. destruct (0 <? Count b); lia.
Qed.

End Counters.

(** * The uncovered-range extractor *)

Section Extractor.

Implicit Types (e : list string) (s : string) (enc : gmap string bool).

Lemma encode_fold_lookup e enc s :
  foldl (λ enc s, <[s := true]> enc) enc e !! s
  = if decide (s ∈ e) then Some true else enc !! s.
Proof.
  revert enc. induction e as [|x e IH]; intros enc; cbn [foldl].
  - case_decide as H; [destruct (not_elem_of_nil s H) | done].
  - rewrite IH. destruct (decide (s = x)) as [->|Hne].
    + rewrite lookup_insert_eq, (decide_True (P := x ∈ x :: e)) by left.
      by case_decide.
    + rewrite lookup_insert_ne by done. apply decide_ext.
      rewrite elem_of_cons. split; [by right | by intros [?|?]].
Qed.

(** The keys of the map built by the first loop are the strings of [e]. *)
Lemma elem_of_keys_encode e s : s ∈ keys_of (encode e) ↔ s ∈ e.
Proof.
  unfold keys_of, encode. rewrite list_elem_of_fmap. split.
  - intros [[k v] [-> Hkv]]. apply elem_of_map_to_list in Hkv.
    rewrite encode_fold_lookup in Hkv. cbn. by case_decide.
  - intros Hs. exists (s, true). split; [done|].
    apply elem_of_map_to_list. rewrite encode_fold_lookup. by case_decide.
Qed.

Lemma NoDup_keys_of enc : NoDup (keys_of enc).
Proof. apply NoDup_fst_map_to_list. Qed.

Lemma snoc_fold (l acc : list string) : foldl (λ res k, res ++ [k]) acc l = acc ++ l.
Proof.
  revert acc. induction l as [|x l IH]; intros acc; cbn [foldl].
  - by rewrite app_nil_r.
  - rewrite IH, <- app_assoc. reflexivity.
Qed.

Lemma removeArrayDuplicates_order order e :
  removeArrayDuplicates order e = order (encode e).
Proof. unfold removeArrayDuplicates. apply snoc_fold. Qed.

Global Instance canonical_order_admissible : Admissible canonical_order.
Proof. intros enc. reflexivity. Qed.

Global Instance reversed_order_admissible : Admissible reversed_order.
Proof. intros enc. unfold reversed_order. apply reverse_Permutation. Qed.

Context (order : RangeOrder) `{!Admissible order}.

Lemma removeArrayDuplicates_NoDup e : NoDup (removeArrayDuplicates order e).
Proof.
  rewrite removeArrayDuplicates_order, (admissible (encode e)).
  apply NoDup_keys_of.
Qed.

Lemma elem_of_removeArrayDuplicates e s :
  s ∈ removeArrayDuplicates order e ↔ s ∈ e.
Proof.
  rewrite removeArrayDuplicates_order, (admissible (encode e)).
  apply elem_of_keys_encode.
Qed.

(** A member of a duplicate-free list occurs in it once. *)
Lemma NoDup_count_occ_1 (l : list string) s :
  NoDup l → s ∈ l → count_occ string_dec l s = 1%nat.
Proof.
  intros Hnd Hin. apply NoDup_ListNoDup in Hnd. apply list_elem_of_In in Hin.
  by apply (proj1 (List.NoDup_count_occ' string_dec l) Hnd).
Qed.

Lemma removeArrayDuplicates_once e s :
  s ∈ e → count_occ string_dec (removeArrayDuplicates order e) s = 1%nat.
Proof.
  intros Hs. apply NoDup_count_occ_1.
  - apply removeArrayDuplicates_NoDup.
  - by apply elem_of_removeArrayDuplicates.
Qed.

End Extractor.

Section UncoveredLines.

Implicit Types (b block : ProfileBlock) (blocks : list ProfileBlock).

(** The loop of [htmlGen] appends the ranges of the blocks whose count is
    zero, in block order. *)
Lemma uncoverdLines_loop_spec blocks acc :
  uncoverdLines_loop blocks acc
  = acc ++ (Sprintf_range <$> filter (λ b, Count b = 0) blocks).
Proof.
  unfold uncoverdLines_loop. revert acc.
  induction blocks as [|b blocks IH]; intros acc; cbn [foldl].
  - by rewrite app_nil_r.
  - rewrite IH, filter_cons. destruct (Z.eqb_spec (Count b) 0); case_decide; try lia.
    + by rewrite <- app_assoc.
    + reflexivity.
Qed.

Lemma elem_of_uncoverdLines blocks s :
  s ∈ uncoverdLines_loop blocks []
  ↔ ∃ b, b ∈ blocks ∧ Count b = 0 ∧ s = Sprintf_range b.
Proof.
  rewrite uncoverdLines_loop_spec, app_nil_l, list_elem_of_fmap.
  split.
  - intros [b [-> Hb]]. apply list_elem_of_filter in Hb as [? ?]. eauto.
  - intros [b (Hb & Hc & ->)]. exists b. split; [done|].
    by apply list_elem_of_filter.
Qed.

(** What reaches the [data-line] attribute, for any admissible iteration
    order: the ranges of the zero-count blocks, each once. *)
Lemma elem_of_uncovered_ranges order `{!Admissible order} p s :
  s ∈ uncovered_ranges order p
  ↔ ∃ b, b ∈ Blocks p ∧ Count b = 0 ∧ s = Sprintf_range b.
Proof.
  unfold uncovered_ranges.
  rewrite (elem_of_removeArrayDuplicates order). apply elem_of_uncoverdLines.
Qed.

Lemma uncovered_ranges_NoDup order `{!Admissible order} p :
  NoDup (uncovered_ranges order p).
Proof. apply (removeArrayDuplicates_NoDup order). Qed.

End UncoveredLines.

(** * Conversions of integers to binary64 *)

Module Float64Facts.

Lemma SFopp_binary_round m e :
  SFopp (binary_round prec emax false m e) = binary_round prec emax true m e.
Proof.
  unfold binary_round, binary_round_aux.
  destruct (shl_align m e _) as [mz ez].
  destruct (shr_fexp prec emax (Z.pos mz) ez loc_Exact) as [mrs' e'].
  destruct (shr_fexp prec emax _ e' loc_Exact) as [mrs'' e''].
  destruct (shr_m mrs''); [reflexivity| |reflexivity].
  destruct (e'' <=? emax - prec); reflexivity.
Qed.

Lemma of_uint63_of_Z z :
  0 <= z <= Int64.max_int → of_uint63 (Uint63.of_Z z) = Float64.of_Z z.
Proof.
  intros Hz. unfold Float64.of_Z.
  rewrite <- (SF2Prim_Prim2SF (of_uint63 _)), of_uint63_spec, Uint63.of_Z_spec.
  rewrite Z.mod_small; [reflexivity|].
  unfold Int64.max_int in Hz. change Uint63.wB with (2 ^ 63). lia.
Qed.

(** On the range of [int64] the machine conversion is the IEEE one. *)
Lemma of_int64_of_Z z : Int64.in_range z → Float64.of_int64 z = Float64.of_Z z.
Proof.
  unfold Int64.in_range. intros Hz. unfold Float64.of_int64.
  destruct (Z.eqb_spec z Int64.min_int) as [->|Hmin]; [reflexivity|].
  destruct (Z.ltb_spec z 0) as [Hneg|Hpos].
  - rewrite <- (SF2Prim_Prim2SF (- _)%float), opp_spec, of_uint63_spec.
    rewrite Uint63.of_Z_spec, Z.mod_small
      by (unfold Int64.min_int in *; change Uint63.wB with (2 ^ 63); lia).
    unfold Float64.of_Z. f_equal.
    destruct z as [|q|q]; try lia. cbn [Z.opp binary_normalize].
    apply SFopp_binary_round.
  - apply of_uint63_of_Z. lia.
Qed.

Lemma percent_of_exact covered total :
  Int64.in_range covered → Int64.in_range total →
  percent_of covered total = percent_exact covered total.
Proof.
  intros Hc Ht. unfold percent_of, percent_exact.
  rewrite !of_int64_of_Z by assumption. reflexivity.
Qed.

End Float64Facts.

(** * Facts about rounding *)

Module RoundingFacts.

Import Rounding.

(** Side conditions on exponents: the least exponent of binary64 is -1074,
    the greatest 971. *)
Ltac binary64_bounds :=
  change (SpecFloat.emin prec emax) with (-1074);
  change (emax - prec) with 971;
  lia.

Lemma shr_m_of_loc m l : shr_m (shr_record_of_loc m l) = m.
Proof. by destruct l as [|[]]. Qed.

Lemma loc_of_shr_record_of_loc m l : loc_of_shr_record (shr_record_of_loc m l) = l.
Proof. by destruct l as [|[]]. Qed.

Lemma shr_1_fields m r s :
  0 <= m →
  shr_1 (Build_shr_record m r s) = Build_shr_record (m / 2) (Z.odd m) (r || s).
Proof.
  intros Hm. destruct m as [|[p|p|]|]; try lia; cbn [shr_1 Z.odd].
  - reflexivity.
  - replace (Z.pos p~1 / 2) with (Z.pos p); [reflexivity|].
    apply Z.div_unique with 1; lia.
  - replace (Z.pos p~0 / 2) with (Z.pos p); [reflexivity|].
    apply Z.div_unique with 0; lia.
  - reflexivity.
Qed.

Lemma shr_1_record m l :
  0 <= m →
  shr_1 (shr_record_of_loc m l)
  = Build_shr_record (m / 2) (Z.odd m) (if l is loc_Exact then false else true).
Proof.
  intros Hm. destruct l as [|[]]; cbn [shr_record_of_loc]; by rewrite shr_1_fields.
Qed.

Lemma shr_1_rec_of num den :
  0 <= num → 0 < den → shr_1 (rec_of num den) = rec_of num (den * 2).
Proof.
  intros Hn Hd. unfold rec_of at 1. rewrite shr_1_record by (apply Z.div_pos; lia).
  unfold rec_of. rewrite <- Z.div_div by lia.
  rewrite Z.rem_mul_r by lia.
  set (m := num / den). set (r := num mod den).
  assert (0 <= r < den) by (apply Z.mod_pos_bound; lia).
  assert (0 <= m) by (apply Z.div_pos; lia).
  pose proof (Z.mod_pos_bound m 2 ltac:(lia)).
  rewrite (Zodd_mod m). unfold loc_frac. clearbody m r.
  assert (m mod 2 = 0 ∨ m mod 2 = 1) as [E|E] by lia; rewrite E; cbn [Z.eqb];
    rewrite ?Z.mul_0_r, ?Z.mul_1_r, ?Z.add_0_r.
  - destruct (Z.eqb_spec r 0) as [->|Hr]; cbn [shr_record_of_loc]; [reflexivity|].
    destruct (Z.compare_spec (2 * r) (den * 2)); try lia. reflexivity.
  - destruct (Z.eqb_spec r 0) as [Hr|Hr], (Z.eqb_spec (r + den) 0); try lia;
      destruct (Z.compare_spec (2 * (r + den)) (den * 2)); try lia; reflexivity.
Qed.

Lemma iter_pos_shr_1 p : ∀ num den,
  0 <= num → 0 < den →
  SpecFloat.iter_pos shr_1 p (rec_of num den) = rec_of num (den * 2 ^ Z.pos p).
Proof.
  induction p as [p IH|p IH|]; intros num den Hn Hd; cbn [SpecFloat.iter_pos].
  - rewrite shr_1_rec_of, !IH by lia. f_equal.
    replace (Z.pos p~1) with (1 + Z.pos p + Z.pos p) by lia.
    rewrite !Z.pow_add_r by lia. ring.
  - rewrite !IH by lia. f_equal.
    replace (Z.pos p~0) with (Z.pos p + Z.pos p) by lia.
    rewrite !Z.pow_add_r by lia. ring.
  - rewrite shr_1_rec_of by lia. reflexivity.
Qed.

(** [shr] by any amount: a positive amount divides, the others do nothing. *)
Lemma shr_rec_of num den e n :
  0 <= num → 0 < den →
  shr (rec_of num den) e n = (rec_of num (den * 2 ^ Z.max 0 n), e + Z.max 0 n).
Proof.
  intros Hn Hd. destruct n as [|p|p]; cbn [shr].
  - rewrite Z.max_id. cbn. rewrite Z.mul_1_r, Z.add_0_r. reflexivity.
  - rewrite iter_pos_shr_1 by lia. rewrite Z.max_r by lia. reflexivity.
  - rewrite Z.max_l by lia. cbn. rewrite Z.mul_1_r, Z.add_0_r. reflexivity.
Qed.

Lemma round_nearest_even_rec_of num den :
  0 < den →
  round_nearest_even (shr_m (rec_of num den)) (loc_of_shr_record (rec_of num den))
  = round_half_even num den.
Proof.
  intros Hd. unfold rec_of. rewrite shr_m_of_loc, loc_of_shr_record_of_loc.
  unfold loc_frac, round_half_even.
  pose proof (Z.mod_pos_bound num den Hd).
  destruct (Z.eqb_spec (num mod den) 0) as [E|E]; cbn [round_nearest_even].
  - rewrite E. destruct (Z.compare_spec (2 * 0) den); try lia; reflexivity.
  - destruct (2 * (num mod den) ?= den); reflexivity.
Qed.

(** ** Digits *)

Lemma digits2_pos_spec p :
  2 ^ (Z.pos (digits2_pos p) - 1) <= Z.pos p < 2 ^ Z.pos (digits2_pos p).
Proof.
  induction p as [p IH|p IH|]; cbn [digits2_pos]; [| |cbn; lia].
  - rewrite Pos2Z.inj_succ. replace (Z.succ (Z.pos (digits2_pos p)) - 1)
      with (1 + (Z.pos (digits2_pos p) - 1)) by lia.
    unfold Z.succ. rewrite (Z.add_comm _ 1), !Z.pow_add_r by lia. lia.
  - rewrite Pos2Z.inj_succ. replace (Z.succ (Z.pos (digits2_pos p)) - 1)
      with (1 + (Z.pos (digits2_pos p) - 1)) by lia.
    unfold Z.succ. rewrite (Z.add_comm _ 1), !Z.pow_add_r by lia. lia.
Qed.

(** The number of digits is determined by the two powers around. *)
Lemma Zdigits2_unique m d :
  2 ^ (d - 1) <= m < 2 ^ d → 0 < d → Zdigits2 m = d.
Proof.
  intros Hm Hd. destruct m as [|p|p]; [| |lia].
  - pose proof (Z.pow_pos_nonneg 2 (d - 1) ltac:(lia) ltac:(lia)). lia.
  - cbn [Zdigits2]. pose proof (digits2_pos_spec p) as Hp.
    set (k := Z.pos (digits2_pos p)) in *.
    assert (0 < k) by (subst k; lia).
    destruct (Z.lt_trichotomy k d) as [Hlt|[Heq|Hgt]]; [|exact Heq|]; exfalso.
    + assert (2 ^ k <= 2 ^ (d - 1)) by (apply Z.pow_le_mono_r; lia). lia.
    + assert (2 ^ d <= 2 ^ (k - 1)) by (apply Z.pow_le_mono_r; lia). lia.
Qed.

(** ** Rounding to nearest, ties to even, on quotients *)

Section RoundHalfEven.

Variables (den : Z) (Hden : 0 < den).

Lemma round_half_even_le_int num k : num <= k * den → round_half_even num den <= k.
Proof.
  intros Hk. unfold round_half_even.
  pose proof (Z.div_mod num den ltac:(lia)). pose proof (Z.mod_pos_bound num den Hden).
  destruct (Z.compare_spec (2 * (num mod den)) den); [destruct (Z.even _)|..]; nia.
Qed.

Lemma round_half_even_ge_int num k : k * den <= num → k <= round_half_even num den.
Proof.
  intros Hk. unfold round_half_even.
  pose proof (Z.div_mod num den ltac:(lia)). pose proof (Z.mod_pos_bound num den Hden).
  destruct (Z.compare_spec (2 * (num mod den)) den); [destruct (Z.even _)|..]; nia.
Qed.

Lemma round_half_even_exact k : round_half_even (k * den) den = k.
Proof.
  apply Z.le_antisymm;
    [apply round_half_even_le_int | apply round_half_even_ge_int]; lia.
Qed.

Lemma round_half_even_mono num1 num2 :
  num1 <= num2 → round_half_even num1 den <= round_half_even num2 den.
Proof.
  intros Hle. unfold round_half_even.
  pose proof (Z.div_mod num1 den ltac:(lia)). pose proof (Z.mod_pos_bound num1 den Hden).
  pose proof (Z.div_mod num2 den ltac:(lia)). pose proof (Z.mod_pos_bound num2 den Hden).
  assert (num1 / den <= num2 / den) as Hm by (apply Z.div_le_mono; lia).
  destruct (Z.eq_dec (num1 / den) (num2 / den)) as [E|E].
  - rewrite <- E in *.
    destruct (Z.compare_spec (2 * (num1 mod den)) den),
             (Z.compare_spec (2 * (num2 mod den)) den);
      try destruct (Z.even _); lia.
  - destruct (Z.compare_spec (2 * (num1 mod den)) den),
             (Z.compare_spec (2 * (num2 mod den)) den);
      repeat match goal with |- context [Z.even ?m] => destruct (Z.even m) end; lia.
Qed.

End RoundHalfEven.

(** ** [binary_round_aux] in the normal range *)

Lemma binary_round_aux_normal num den ex n :
  0 <= num → 0 < den →
  Zdigits2 (num / den) = 53 + n → 0 <= n →
  SpecFloat.emin prec emax <= ex + n → ex + n + 1 <= emax - prec →
  binary_round_aux prec emax false (num / den) ex (loc_frac (num mod den) den)
  = renormalize (round_half_even num (den * 2 ^ n)) (ex + n)
  ∧ 2 ^ 52 <= round_half_even num (den * 2 ^ n) <= 2 ^ 53.
Proof.
  intros Hnum Hden Hd Hn Hmin Hmax.
  assert (0 < 2 ^ n) as H2n by (apply Z.pow_pos_nonneg; lia).
  assert (0 < den * 2 ^ n) as Hden' by lia.
  set (N := round_half_even num (den * 2 ^ n)).
  assert (2 ^ 52 <= N <= 2 ^ 53) as HN.
  { assert (2 ^ (53 + n - 1) <= num / den < 2 ^ (53 + n)) as Hmx.
    { rewrite <- Hd. destruct (num / den) as [|p|p] eqn:E; try discriminate; try lia.
      - cbn in Hd. lia.
      - apply digits2_pos_spec.
      - cbn [Zdigits2]. pose proof (Z.div_pos num den). lia. }
    replace (53 + n - 1) with (52 + n) in Hmx by lia.
    rewrite !Z.pow_add_r in Hmx by lia.
    pose proof (Z.div_mod num den ltac:(lia)). pose proof (Z.mod_pos_bound num den Hden).
    split.
    - apply round_half_even_ge_int; [lia|]. nia.
    - apply round_half_even_le_int; [lia|]. nia. }
  split; [|exact HN].
  unfold binary_round_aux.
  change (shr_fexp prec emax (num / den) ex (loc_frac (num mod den) den))
    with (shr (rec_of num den) ex (fexp prec emax (Zdigits2 (num / den) + ex) - ex)).
  rewrite Hd. unfold fexp at 1. rewrite Z.max_l by (change prec with 53 in *; lia).
  rewrite shr_rec_of by lia.
  replace (53 + n + ex - prec - ex) with n by (change prec with 53; lia).
  rewrite Z.max_r by lia.
  rewrite round_nearest_even_rec_of by lia. fold N.
  unfold shr_fexp, renormalize. cbn [shr_record_of_loc].
  destruct (Z.eqb_spec N (2 ^ 53)) as [E|E].
  - rewrite E. replace (Zdigits2 (2 ^ 53)) with 54 by reflexivity.
    unfold fexp. rewrite Z.max_l by (change prec with 53 in *; lia).
    replace (54 + (ex + n) - prec - (ex + n)) with 1 by (change prec with 53; lia).
    cbn [shr SpecFloat.iter_pos]. rewrite shr_1_fields by lia. cbn [shr_m].
    replace (2 ^ 53 / 2) with (2 ^ 52) by reflexivity.
    replace (2 ^ 52) with (Z.pos (Z.to_pos (2 ^ 52))) at 1 by reflexivity.
    cbv iota beta.
    destruct (Z.leb_spec (ex + n + 1) (emax - prec)); [reflexivity|lia].
  - rewrite (Zdigits2_unique N 53) by lia.
    unfold fexp. rewrite Z.max_l by (change prec with 53 in *; lia).
    replace (53 + (ex + n) - prec - (ex + n)) with 0 by (change prec with 53; lia).
    cbn [shr shr_m].
    destruct N as [|p|p] eqn:EN; try lia. cbn [Z.to_pos].
    destruct (Z.leb_spec (ex + n) (emax - prec)); [reflexivity|lia].
Qed.

Lemma renormalize_finite N E :
  2 ^ 52 <= N <= 2 ^ 53 →
  ∃ m e, renormalize N E = S754_finite false m e
         ∧ 2 ^ 52 <= Z.pos m < 2 ^ 53
         ∧ ((N < 2 ^ 53 ∧ Z.pos m = N ∧ e = E) ∨ (N = 2 ^ 53 ∧ Z.pos m = 2 ^ 52 ∧ e = E + 1)).
Proof.
  intros HN. unfold renormalize. destruct (Z.eqb_spec N (2 ^ 53)) as [E53|E53].
  - eexists _, _. split; [reflexivity|]. split; [cbn; lia|]. right. by cbn.
  - eexists _, _. split; [reflexivity|]. rewrite Z2Pos.id by lia. split; [lia|].
    left. lia.
Qed.

(** ** The conversion of an integer *)

Lemma Zdigits2_bounds z :
  0 < z → 0 < Zdigits2 z ∧ 2 ^ (Zdigits2 z - 1) <= z < 2 ^ Zdigits2 z.
Proof.
  destruct z as [|p|p]; try lia. intros _. split; [cbn; lia|]. apply digits2_pos_spec.
Qed.

Lemma Zdigits2_mono a b : 0 < a <= b → Zdigits2 a <= Zdigits2 b.
Proof.
  intros Hab. destruct (Zdigits2_bounds a) as [Ha1 Ha2]; [lia|].
  destruct (Zdigits2_bounds b) as [Hb1 Hb2]; [lia|].
  destruct (Z.le_gt_cases (Zdigits2 a) (Zdigits2 b)) as [|Hgt]; [done|exfalso].
  assert (2 ^ Zdigits2 b <= 2 ^ (Zdigits2 a - 1)) by (apply Z.pow_le_mono_r; lia). lia.
Qed.

Lemma round_half_even_1 z : round_half_even z 1 = z.
Proof. rewrite <- (Z.mul_1_r z) at 1. by apply round_half_even_exact. Qed.

Lemma nearest_bounds z :
  0 < z → 2 ^ (Zdigits2 z - 1) <= nearest z <= 2 ^ Zdigits2 z.
Proof.
  intros Hz. destruct (Zdigits2_bounds z Hz) as [Hd Hb]. unfold nearest.
  destruct (Z.le_gt_cases (Zdigits2 z) 53) as [Hle|Hgt].
  - rewrite Z.max_l by lia. rewrite round_half_even_1. cbn. lia.
  - rewrite Z.max_r by lia. set (n := Zdigits2 z - 53) in *.
    assert (0 < 2 ^ n) by (apply Z.pow_pos_nonneg; lia).
    replace (Zdigits2 z - 1) with (52 + n) in * by lia.
    replace (Zdigits2 z) with (53 + n) in * by lia.
    rewrite !Z.pow_add_r in * by lia.
    assert (2 ^ 52 <= round_half_even z (2 ^ n)) by (apply round_half_even_ge_int; lia).
    assert (round_half_even z (2 ^ n) <= 2 ^ 53) by (apply round_half_even_le_int; lia).
    nia.
Qed.

Lemma nearest_mono c t : 0 < c <= t → nearest c <= nearest t.
Proof.
  intros Hct. pose proof (Zdigits2_mono c t Hct) as Hd.
  destruct (Z.eq_dec (Zdigits2 c) (Zdigits2 t)) as [E|E].
  - unfold nearest. rewrite E. set (n := Z.max 0 _).
    assert (0 < 2 ^ n) by (apply Z.pow_pos_nonneg; lia).
    apply Z.mul_le_mono_nonneg_r; [lia|]. apply round_half_even_mono; lia.
  - pose proof (nearest_bounds c ltac:(lia)). pose proof (nearest_bounds t ltac:(lia)).
    assert (2 ^ Zdigits2 c <= 2 ^ (Zdigits2 t - 1)) by (apply Z.pow_le_mono_r; lia).
    lia.
Qed.

Lemma Zpos_iter_xO p k : Z.pos (Pos.iter xO p k) = Z.pos p * 2 ^ Z.pos k.
Proof.
  induction k as [|k IH] using Pos.peano_ind.
  - cbn. lia.
  - rewrite Pos.iter_succ, Pos2Z.inj_xO, IH, Pos2Z.inj_succ, Z.pow_succ_r by lia. ring.
Qed.

(** [float64(z)] is a normal number whose value is [nearest z]. *)
Lemma binary_normalize_int z :
  0 < z < 2 ^ 63 →
  ∃ m e, binary_normalize prec emax z 0 false = S754_finite false m e
         ∧ 2 ^ 52 <= Z.pos m < 2 ^ 53
         ∧ -52 <= e <= 11
         ∧ Z.pos m * 2 ^ (e + 52) = nearest z * 2 ^ 52.
Proof.
  intros Hz. destruct (Zdigits2_bounds z ltac:(lia)) as [Hd Hb].
  assert (Zdigits2 z <= 63) as Hd63.
  { destruct (Z.le_gt_cases (Zdigits2 z) 63); [done|exfalso].
    assert (2 ^ 63 <= 2 ^ (Zdigits2 z - 1)) by (apply Z.pow_le_mono_r; lia). lia. }
  destruct z as [|p|p]; try lia. cbn [binary_normalize]. unfold binary_round.
  cbn [Zdigits2] in *. set (d := Z.pos (digits2_pos p)) in *.
  rewrite Z.add_0_r. unfold fexp at 1.
  rewrite Z.max_l by (change (SpecFloat.emin prec emax) with (-1074); change prec with 53; lia).
  change (d - prec) with (d - 53). unfold shl_align. rewrite Z.sub_0_r.
  destruct (d - 53) as [|k|k] eqn:Ek.
  - (* 53 digits: exact *)
    assert (d = 53) as Hd53 by lia. rewrite Hd53 in Hb.
    destruct (binary_round_aux_normal (Z.pos p) 1 0 0) as [Hr HN]; try lia.
    { rewrite Z.div_1_r. cbn [Zdigits2]. lia. }
    { binary64_bounds. }
    { binary64_bounds. }
    rewrite Z.div_1_r, Z.mod_1_r in Hr. change (loc_frac 0 1) with loc_Exact in Hr.
    rewrite Hr. cbn [Z.pow Z.mul] in *. change (1 * 1) with 1 in *.
    rewrite round_half_even_1 in *.
    destruct (renormalize_finite (Z.pos p) (0 + 0) HN) as (m & e & -> & Hm & Hcase).
    exists m, e. split; [reflexivity|]. split; [exact Hm|].
    unfold nearest. cbn [Zdigits2]. fold d. rewrite Z.max_l by lia.
    rewrite round_half_even_1. destruct Hcase as [(? & -> & ->)|(? & ? & ?)]; [|lia].
    cbn. lia.
  - (* more than 53 digits: rounded at exponent [k] *)
    destruct (binary_round_aux_normal (Z.pos p) 1 0 (Z.pos k)) as [Hr HN]; try lia.
    { rewrite Z.div_1_r. cbn [Zdigits2]. lia. }
    { binary64_bounds. }
    { binary64_bounds. }
    rewrite Z.div_1_r, Z.mod_1_r in Hr. change (loc_frac 0 1) with loc_Exact in Hr.
    rewrite Hr. rewrite Z.mul_1_l in *.
    destruct (renormalize_finite _ (0 + Z.pos k) HN) as (m & e & -> & Hm & Hcase).
    exists m, e. split; [reflexivity|]. split; [exact Hm|].
    unfold nearest. cbn [Zdigits2]. fold d. rewrite Z.max_r by lia. rewrite Ek.
    assert (0 < 2 ^ Z.pos k) by (apply Z.pow_pos_nonneg; lia).
    destruct Hcase as [(? & -> & ->)|(-> & -> & ->)].
    + split; [lia|]. rewrite Z.add_0_l, Z.pow_add_r by lia. ring.
    + split; [lia|]. rewrite Z.add_0_l, !Z.pow_add_r by lia. cbn. ring.
  - (* fewer than 53 digits: shifted left, exact *)
    rewrite Zpos_iter_xO.
    assert (0 < 2 ^ Z.pos k) by (apply Z.pow_pos_nonneg; lia).
    assert (Z.pos k = 53 - d) as Hk by lia.
    assert (2 ^ 52 <= Z.pos p * 2 ^ Z.pos k < 2 ^ 53) as Hrange.
    { replace 52 with (d - 1 + Z.pos k) by lia. replace 53 with (d + Z.pos k) by lia.
      rewrite !Z.pow_add_r by lia. nia. }
    destruct (binary_round_aux_normal (Z.pos p * 2 ^ Z.pos k) 1 (Z.neg k) 0)
      as [Hr HN]; try lia.
    { rewrite Z.div_1_r. rewrite (Zdigits2_unique _ 53); lia. }
    { binary64_bounds. }
    { binary64_bounds. }
    rewrite Z.div_1_r, Z.mod_1_r in Hr. change (loc_frac 0 1) with loc_Exact in Hr.
    rewrite Hr. cbn [Z.pow Z.mul] in *. change (1 * 1) with 1 in *.
    rewrite round_half_even_1 in *.
    destruct (renormalize_finite _ (Z.neg k + 0) HN) as (m & e & -> & Hm & Hcase).
    exists m, e. split; [reflexivity|]. split; [exact Hm|].
    unfold nearest. cbn [Zdigits2]. fold d. rewrite Z.max_l by lia.
    rewrite round_half_even_1. destruct Hcase as [(? & -> & ->)|(? & ? & ?)]; [|lia].
    split; [lia|]. rewrite Z.pow_0_r, Z.mul_1_r.
    replace (Z.neg k + 0 + 52) with (d - 1) by lia.
    assert (2 ^ 52 = 2 ^ Z.pos k * 2 ^ (d - 1)) as ->.
    { rewrite <- Z.pow_add_r by lia. f_equal. lia. }
    ring.
Qed.

(** ** Division *)

Lemma new_location_loc_frac den r :
  0 < den → 0 <= r < den → new_location den r = loc_frac r den.
Proof.
  intros Hden Hr. unfold new_location, new_location_even, new_location_odd, loc_frac.
  destruct (Z.even den) eqn:Ev; destruct (Z.eqb_spec r 0) as [E0|E0]; try reflexivity.
  f_equal.
  assert (Z.odd den = true) as Hodd by (rewrite <- Z.negb_even, Ev; reflexivity).
  apply Z.odd_spec in Hodd as [k Hk].
  destruct (Z.compare_spec (2 * r + 1) den), (Z.compare_spec (2 * r) den);
      try reflexivity; lia.
Qed.

Lemma SFdiv_le_one mx ex my ey :
  2 ^ 52 <= Z.pos mx < 2 ^ 53 → 2 ^ 52 <= Z.pos my < 2 ^ 53 →
  -52 <= ex <= 11 → -52 <= ey <= 11 →
  Z.pos mx * 2 ^ (ex + 52) <= Z.pos my * 2 ^ (ey + 52) →
  ∃ m e, SFdiv prec emax (S754_finite false mx ex) (S754_finite false my ey)
         = S754_finite false m e ∧ le_one m e.
Proof.
  intros Hmx Hmy Hex Hey Hle.
  cbn [SFdiv xorb]. unfold SFdiv_core_binary.
  rewrite !(Zdigits2_unique (Z.pos _) 53) by lia.
  unfold fexp. change (SpecFloat.emin prec emax) with (-1074).
  rewrite Z.max_l, Z.min_l by (change prec with 53; lia).
  replace (ex - ey - (53 + ex - (53 + ey) - prec)) with 53 by (change prec with 53; lia).
  rewrite Z.shiftl_mul_pow2 by lia.
  set (num := Z.pos mx * 2 ^ 53).
  replace (53 + ex - (53 + ey) - prec) with (ex - ey - 53) by (change prec with 53; lia).
  set (E := ex - ey - 53).
  destruct (Z.div_eucl num (Z.pos my)) as [q r] eqn:Eqr.
  assert (q = num / Z.pos my) as -> by (unfold Z.div; by rewrite Eqr).
  assert (r = num mod Z.pos my) as -> by (unfold Z.modulo; by rewrite Eqr).
  rewrite new_location_loc_frac by (try apply Z.mod_pos_bound; lia).
  pose proof (Z.div_mod num (Z.pos my) ltac:(lia)) as Hdm.
  pose proof (Z.mod_pos_bound num (Z.pos my) ltac:(lia)) as Hmod.
  (* the exponents compare as the values do *)
  assert (ex <= ey) as Hexy.
  { destruct (Z.le_gt_cases ex ey) as [|Hgt]; [done|exfalso].
    replace (ex + 52) with (ex - ey + (ey + 52)) in Hle by lia.
    rewrite Z.pow_add_r in Hle by lia.
    assert (0 < 2 ^ (ey + 52)) by (apply Z.pow_pos_nonneg; lia).
    assert (2 ^ 1 <= 2 ^ (ex - ey)) by (apply Z.pow_le_mono_r; lia).
    rewrite Z.mul_assoc in Hle. apply Z.mul_le_mono_pos_r in Hle; [|done].
    assert (Z.pos mx * 2 ^ 1 <= Z.pos mx * 2 ^ (ex - ey))
      by (apply Z.mul_le_mono_nonneg_l; lia).
    lia. }
  assert (ex = ey → Z.pos mx <= Z.pos my) as Hsame.
  { intros ->. assert (0 < 2 ^ (ey + 52)) by (apply Z.pow_pos_nonneg; lia).
    by apply (Z.mul_le_mono_pos_r _ _ (2 ^ (ey + 52))). }
  assert (2 ^ 52 <= num / Z.pos my < 2 ^ 54) as Hq by (subst num; nia).
  destruct (Z.lt_ge_cases (num / Z.pos my) (2 ^ 53)) as [Hlt|Hge].
  - (* the quotient has 53 digits *)
    destruct (binary_round_aux_normal num (Z.pos my) E 0) as [-> HN]; try lia.
    { rewrite (Zdigits2_unique _ 53); lia. }
    { binary64_bounds. }
    { binary64_bounds. }
    destruct (renormalize_finite _ (E + 0) HN) as (m & e & -> & Hm & Hcase).
    exists m, e. split; [reflexivity|]. unfold le_one. split; [exact Hm|].
    destruct Hcase as [(? & ? & ->)|(? & ? & ->)]; lia.
  - (* the quotient has 54 digits *)
    destruct (binary_round_aux_normal num (Z.pos my) E 1) as [-> HN]; try lia.
    { rewrite (Zdigits2_unique _ 54); lia. }
    { binary64_bounds. }
    { binary64_bounds. }
    assert (ex = ey → round_half_even num (Z.pos my * 2 ^ 1) <= 2 ^ 52) as Hone.
    { intros Heq. apply round_half_even_le_int; [lia|]. specialize (Hsame Heq).
      subst num. change (2 ^ 53) with (2 ^ 52 * 2 ^ 1). nia. }
    destruct (renormalize_finite _ (E + 1) HN) as (m & e & -> & Hm & Hcase).
    exists m, e. split; [reflexivity|]. unfold le_one. split; [exact Hm|].
    destruct Hcase as [(? & ? & ->)|(? & ? & ->)]; lia.
Qed.

(** ** Multiplication by 100 *)

Lemma SFmul_100_le mq eq :
  le_one mq eq →
  ∃ m e, SFmul prec emax (S754_finite false mq eq) (S754_finite false mantissa_100 (-46))
         = S754_finite false m e ∧ le_hundred m e.
Proof.
  intros (Hmq & Heq & Hone). cbn [SFmul xorb]. rewrite Pos2Z.inj_mul.
  change (Z.pos mantissa_100) with (25 * 2 ^ 48).
  set (num := Z.pos mq * (25 * 2 ^ 48)).
  assert (25 * 2 ^ 100 <= num < 25 * 2 ^ 101) as Hnum by (subst num; lia).
  replace (binary_round_aux prec emax false num (eq + -46) loc_Exact)
    with (binary_round_aux prec emax false (num / 1) (eq + -46) (loc_frac (num mod 1) 1))
    by (rewrite Z.div_1_r, Z.mod_1_r; reflexivity).
  destruct (Z.lt_ge_cases num (2 ^ 105)) as [Hlt|Hge].
  - (* the product has 105 digits *)
    destruct (binary_round_aux_normal num 1 (eq + -46) 52) as [-> HN]; try lia.
    { rewrite Z.div_1_r, (Zdigits2_unique _ 105); lia. }
    { binary64_bounds. }
    { binary64_bounds. }
    rewrite Z.mul_1_l in *.
    assert (eq = -52 → round_half_even num (2 ^ 52) = 25 * 2 ^ 48) as Hexact.
    { intros ->. destruct Hone as [|[_ Hm]]; [lia|].
      subst num. rewrite Hm, Z.mul_comm. apply (round_half_even_exact (2 ^ 52)); lia. }
    destruct (renormalize_finite _ (eq + -46 + 52) HN) as (m & e & -> & Hm & Hcase).
    exists m, e. split; [reflexivity|]. unfold le_hundred.
    change (Z.pos mantissa_100) with (25 * 2 ^ 48).
    destruct Hcase as [(? & ? & ->)|(? & ? & ->)]; lia.
  - (* the product has 106 digits *)
    destruct (binary_round_aux_normal num 1 (eq + -46) 53) as [-> HN]; try lia.
    { rewrite Z.div_1_r, (Zdigits2_unique _ 106); lia. }
    { binary64_bounds. }
    { binary64_bounds. }
    rewrite Z.mul_1_l in *.
    assert (round_half_even num (2 ^ 53) <= 25 * 2 ^ 48) as Hbound.
    { apply round_half_even_le_int; [lia|]. subst num. lia. }
    destruct (renormalize_finite _ (eq + -46 + 53) HN) as (m & e & -> & Hm & Hcase).
    exists m, e. split; [reflexivity|]. unfold le_hundred.
    change (Z.pos mantissa_100) with (25 * 2 ^ 48).
    destruct Hcase as [(? & ? & ->)|(? & ? & ->)]; lia.
Qed.

(** ** The percentage *)

Lemma Prim2SF_100 : Prim2SF 100 = S754_finite false mantissa_100 (-46).
Proof. reflexivity. Qed.

Lemma Prim2SF_0 : Prim2SF 0 = S754_zero false.
Proof. reflexivity. Qed.

Lemma SFleb_0_finite m e : SFleb (S754_zero false) (S754_finite false m e) = true.
Proof. reflexivity. Qed.

Lemma SFleb_le_hundred m e :
  le_hundred m e → SFleb (S754_finite false m e) (S754_finite false mantissa_100 (-46)) = true.
Proof.
  unfold le_hundred, SFleb, SFcompare. intros [Hlt|[-> Hle]].
  - destruct (Z.compare_spec e (-46)); first [reflexivity | lia].
  - rewrite Z.compare_refl. fold (Pos.compare m mantissa_100).
    rewrite Pos2Z.inj_compare.
    destruct (Z.compare_spec (Z.pos m) (Z.pos mantissa_100)); first [reflexivity | lia].
Qed.

Lemma Prim2SF_of_int64 z :
  0 <= z <= Int64.max_int →
  Prim2SF (Float64.of_int64 z) = binary_normalize prec emax z 0 false.
Proof.
  intros Hz. unfold Float64.of_int64, Int64.min_int, Int64.max_int in *.
  destruct (Z.eqb_spec z (- 2 ^ 63)); [lia|]. destruct (Z.ltb_spec z 0); [lia|].
  rewrite of_uint63_spec, Uint63.of_Z_spec, Z.mod_small; [reflexivity|].
  change Uint63.wB with (2 ^ 63). lia.
Qed.

(** The percentage of two counters [0 <= covered <= total], [total] not 0,
    is between 0 and 100: the three roundings, of the conversions, of the
    quotient and of the product, do not cross 1 and 100. *)
Lemma percent_of_in_0_100 covered total :
  0 <= covered <= total → 0 < total <= Int64.max_int →
  in_0_100 (percent_of covered total) = true.
Proof.
  intros Hc Ht. unfold in_0_100, percent_of.
  rewrite !leb_spec, mul_spec, div_spec, !Prim2SF_of_int64 by lia.
  rewrite Prim2SF_100, Prim2SF_0. unfold SF64mul, SF64div.
  unfold Int64.max_int in Ht.
  destruct (binary_normalize_int total ltac:(lia)) as (my & ey & -> & Hmy & Hey & Hvy).
  destruct (Z.eq_dec covered 0) as [->|Hne]; [reflexivity|].
  destruct (binary_normalize_int covered ltac:(lia)) as (mx & ex & -> & Hmx & Hex & Hvx).
  pose proof (nearest_mono covered total ltac:(lia)) as Hmono.
  destruct (SFdiv_le_one mx ex my ey Hmx Hmy Hex Hey ltac:(lia)) as (mq & eq & -> & Hq).
  destruct (SFmul_100_le mq eq Hq) as (m & e & -> & Hm).
  rewrite SFleb_0_finite, SFleb_le_hundred by exact Hm. reflexivity.
Qed.

End RoundingFacts.

(** * The aggregate *)

Section Aggregate.

Lemma sum_upto_app n (l l' : list float) :
  (n <= length l)%nat → sum_upto n (l ++ l') = sum_upto n l.
Proof.
  induction n as [|n IH]; intros Hn; [reflexivity|].
  cbn [sum_upto]. rewrite IH by lia. rewrite app_nth1 by lia. reflexivity.
Qed.

Lemma sum_upto_loop (ps : list float) :
  foldl (λ x p, (x + p)%float) 0%float ps = sum_upto (length ps) ps.
Proof.
  induction ps as [|p ps IH] using rev_ind; [reflexivity|].
  rewrite foldl_snoc, IH, length_app, Nat.add_1_r. cbn [sum_upto].
  rewrite sum_upto_app by lia. rewrite nth_middle. reflexivity.
Qed.

(** The loop [x += v.Coverage] computes the sum from the left. *)
Lemma totalCoverage_loop (files : list templateFile) :
  foldl (λ x v, (x + Coverage v)%float) 0%float files
  = sum_upto (length files) (Coverage <$> files).
Proof.
  rewrite <- (length_fmap Coverage files), <- sum_upto_loop.
  generalize 0%float. induction files as [|v files IH]; intros x; [reflexivity|].
  cbn [foldl fmap list_fmap]. apply IH.
Qed.

Lemma totalCoverage_mean (d : templateData) :
  totalCoverage d = mean (Coverage <$> Files d).
Proof.
  unfold totalCoverage, mean. rewrite totalCoverage_loop, length_fmap. reflexivity.
Qed.

End Aggregate.

(** C1: the claim is that [totalCoverage] returns 0 for a report with no
    file.  The code has no guard: it divides the empty sum [0] by
    [float64(0)], and the result is NaN, which is not equal to 0 under Go's
    [==] either. *)
Theorem totalCoverage_no_files (set : bool) :
  totalCoverage (mkData [] set) = nan
  ∧ (totalCoverage (mkData [] set) =? 0)%float = false.
Proof. split; reflexivity. Qed.

(** C4: for a report with N >= 1 files of coverages p1..pN, [totalCoverage]
    is the arithmetic mean (p1 + ... + pN) / N in [float64], summed from the
    left: every file weighs the same, whatever its number of statements. *)
Theorem totalCoverage_arithmetic_mean (d : templateData) :
  (1 <= length (Files d))%nat →
  totalCoverage d
  = (sum_upto (length (Files d)) (Coverage <$> Files d)
     / Float64.of_int64 (Z.of_nat (length (Files d))))%float.
Proof.
  intros _. rewrite totalCoverage_mean. unfold mean. rewrite length_fmap. reflexivity.
Qed.

Lemma totalCoverage_arithmetic_mean_witness :
  totalCoverage (mkData [mkFile "a.go" "" 100 0; mkFile "b.go" "" 0 1;
                         mkFile "c.go" "" 50 2] false)
  = ((0 + 100 + 0 + 50) / 3)%float.
Proof.
  apply (totalCoverage_arithmetic_mean
           (mkData [mkFile "a.go" "" 100 0; mkFile "b.go" "" 0 1;
                    mkFile "c.go" "" 50 2] false)).
  cbn. lia.
Defined.

(** The means differ: one statement covered out of one in [a.go], none out
    of nine in [b.go] is 50 percent by files and 10 percent by statements. *)
Example file_mean_is_not_statement_mean :
  let pa := mkProfile "a.go" "set" [mkBlock 1 0 2 0 1 1] in
  let pb := mkProfile "b.go" "set" [mkBlock 1 0 9 0 9 0] in
  totalCoverage (mkData [mkFile "a.go" "" (percentCovered pa) 0;
                         mkFile "b.go" "" (percentCovered pb) 1] true) = 50%float
  ∧ statement_weighted [pa; pb] = 10%float.
Proof. split; reflexivity. Qed.

(** * The per-file percentage *)

(** C2, as stated, fails twice.  With no statement at all the code returns 0
    where [covered/total * 100] is 0/0, that is NaN; and when the statement
    counts do not fit in [int64] the counters wrap: three blocks of [2^62]
    statements, the first one hit, give -100 where the quotient of the sums
    gives 33.3. *)
Lemma percentCovered_formula_counterexample :
  let empty := mkProfile "a.go" "set" [] in
  let huge := mkProfile "a.go" "set"
                [mkBlock 1 0 5 0 (2 ^ 62) 1; mkBlock 6 0 7 0 (2 ^ 62) 0;
                 mkBlock 8 0 9 0 (2 ^ 62) 0] in
  (percentCovered empty = 0%float
   ∧ percent_exact (covered_stmts (Blocks empty)) (total_stmts (Blocks empty)) = nan)
  ∧ (percentCovered huge = (-100)%float
     ∧ percent_exact (covered_stmts (Blocks huge)) (total_stmts (Blocks huge))
       = (1 / 3 * 100)%float).
Proof. repeat split; reflexivity. Qed.

(** C2, amended: when the [int64] total is not 0, [percentCovered] is
    [covered/total * 100] in [float64] on the [int64] sums, which are the sums
    of the specification whenever those fit in [int64]; an iteration of the
    loop adds the statements of a block to [covered] when its count is above
    0 and leaves [covered] as it is otherwise. *)
Theorem percentCovered_formula (p : Profile) :
  Int64.wrap (total_stmts (Blocks p)) ≠ 0 →
  percentCovered p
  = percent_of (Int64.wrap (covered_stmts (Blocks p)))
               (Int64.wrap (total_stmts (Blocks p)))
  ∧ (Int64.in_range (covered_stmts (Blocks p)) →
     Int64.in_range (total_stmts (Blocks p)) →
     percentCovered p
     = percent_exact (covered_stmts (Blocks p)) (total_stmts (Blocks p)))
  ∧ (∀ b total covered, 0 < Count b →
       percentCovered_step (total, covered) b
       = (Int64.add total (Int64.wrap (NumStmt b)),
          Int64.add covered (Int64.wrap (NumStmt b))))
  ∧ (∀ b total covered, Count b <= 0 →
       percentCovered_step (total, covered) b
       = (Int64.add total (Int64.wrap (NumStmt b)), covered)).
Proof.
  intros Ht. rewrite percentCovered_unfold.
  destruct (Z.eqb_spec (Int64.wrap (total_stmts (Blocks p))) 0) as [|_]; [done|].
  split; [reflexivity|]. split.
  - intros Hc Hr. rewrite !Int64Facts.wrap_id by assumption.
    by apply Float64Facts.percent_of_exact.
  - split; intros b total covered Hb; unfold percentCovered_step.
    + destruct (Z.ltb_spec 0 (Count b)); [reflexivity | lia].
    + destruct (Z.ltb_spec 0 (Count b)); [lia | reflexivity].
Qed.

Lemma percentCovered_formula_witness :
  let p := mkProfile "a.go" "count" [mkBlock 1 0 5 0 3 0; mkBlock 6 0 10 0 2 2] in
  percentCovered p = percent_of 2 5
  ∧ (Int64.in_range (covered_stmts (Blocks p)) →
     Int64.in_range (total_stmts (Blocks p)) →
     percentCovered p = percent_exact 2 5)
  ∧ (∀ b total covered, 0 < Count b →
       percentCovered_step (total, covered) b
       = (Int64.add total (Int64.wrap (NumStmt b)),
          Int64.add covered (Int64.wrap (NumStmt b))))
  ∧ (∀ b total covered, Count b <= 0 →
       percentCovered_step (total, covered) b
       = (Int64.add total (Int64.wrap (NumStmt b)), covered)).
Proof.
  apply (percentCovered_formula
           (mkProfile "a.go" "count" [mkBlock 1 0 5 0 3 0; mkBlock 6 0 10 0 2 2])).
  vm_compute. discriminate.
Defined.

(** The two examples of the specification. *)
Example percentCovered_40 :
  percentCovered (mkProfile "a.go" "count" [mkBlock 1 0 5 0 3 0; mkBlock 6 0 10 0 2 2])
  = 40%float.
Proof. reflexivity. Qed.

Example percentCovered_100 :
  percentCovered (mkProfile "a.go" "count" [mkBlock 1 0 5 0 3 2]) = 100%float.
Proof. reflexivity. Qed.

(** C3: a profile whose statement counts sum to 0 has [percentCovered]
    exactly 0: the guard [total == 0] returns before the division. *)
Theorem percentCovered_no_statements (p : Profile) :
  total_stmts (Blocks p) = 0 →
  percentCovered p = 0%float ∧ is_nan (percentCovered p) = false.
Proof.
  intros Ht. rewrite percentCovered_unfold, Ht. split; reflexivity.
Qed.

Lemma percentCovered_no_statements_witness :
  let p := mkProfile "a.go" "set" [mkBlock 1 0 5 0 0 1; mkBlock 6 0 7 0 0 0] in
  percentCovered p = 0%float ∧ is_nan (percentCovered p) = false.
Proof.
  apply (percentCovered_no_statements
           (mkProfile "a.go" "set" [mkBlock 1 0 5 0 0 1; mkBlock 6 0 7 0 0 0])).
  reflexivity.
Defined.

(** C7, as stated, fails when the statement counts do not fit in [int64]:
    three blocks of [2^62] statements, the first one hit, wrap [total] to
    [-2^62] and give -100 percent. *)
Lemma percentCovered_range_counterexample :
  let huge := mkProfile "a.go" "set"
                [mkBlock 1 0 5 0 (2 ^ 62) 1; mkBlock 6 0 7 0 (2 ^ 62) 0;
                 mkBlock 8 0 9 0 (2 ^ 62) 0] in
  Forall (λ b, 0 <= NumStmt b) (Blocks huge)
  ∧ percentCovered huge = (-100)%float
  ∧ in_0_100 (percentCovered huge) = false.
Proof.
  cbv zeta. split; [|split; reflexivity].
  cbn [Blocks]. repeat constructor; cbn [NumStmt]; lia.
Qed.

(** C7, amended: when no block has a negative statement count and the
    statement counts sum to at most [2^63 - 1], [percentCovered] lies in
    [[0, 100]], duplicated or overlapping blocks included. *)
Theorem percentCovered_range (p : Profile) :
  Forall (λ b, 0 <= NumStmt b) (Blocks p) →
  total_stmts (Blocks p) <= Int64.max_int →
  in_0_100 (percentCovered p) = true.
Proof.
  intros Hpos Hmax. pose proof (covered_le_total _ Hpos) as Hle.
  rewrite percentCovered_unfold.
  rewrite !Int64Facts.wrap_id
    by (unfold Int64.in_range, Int64.min_int, Int64.max_int in *; lia).
  destruct (Z.eqb_spec (total_stmts (Blocks p)) 0) as [|Hne]; [reflexivity|].
  apply RoundingFacts.percent_of_in_0_100; lia.
Qed.

Lemma percentCovered_range_witness :
  in_0_100
    (percentCovered
       (mkProfile "a.go" "count"
          [mkBlock 1 0 5 0 3 0; mkBlock 6 0 10 0 2 2; mkBlock 6 0 10 0 2 2;
           mkBlock 4 0 8 0 1 7])) = true.
Proof.
  apply (percentCovered_range
           (mkProfile "a.go" "count"
              [mkBlock 1 0 5 0 3 0; mkBlock 6 0 10 0 2 2; mkBlock 6 0 10 0 2 2;
               mkBlock 4 0 8 0 1 7])).
  - cbn [Blocks]. repeat constructor; cbn [NumStmt]; lia.
  - vm_compute. discriminate.
Defined.

(** * Uncovered ranges *)

(** C5: if two blocks of a profile, at different positions, have a count of
    zero and the same range string, that string occurs exactly once among the
    ranges [htmlGen] emits, whatever order the map is iterated in. *)
Theorem uncovered_ranges_duplicate_once (order : RangeOrder) (p : Profile)
    (i j : nat) (b1 b2 : ProfileBlock) :
  Admissible order →
  i ≠ j → Blocks p !! i = Some b1 → Blocks p !! j = Some b2 →
  Count b1 = 0 → Count b2 = 0 → Sprintf_range b1 = Sprintf_range b2 →
  count_occ string_dec (uncovered_ranges order p) (Sprintf_range b1) = 1%nat.
Proof.
  intros Hadm _ Hi _ Hc1 _ _.
  apply (removeArrayDuplicates_once order). apply elem_of_uncoverdLines.
  exists b1. split; [|done]. by apply list_elem_of_lookup_2 in Hi.
Qed.

Lemma uncovered_ranges_duplicate_once_witness :
  count_occ string_dec
    (uncovered_ranges reversed_order
       (mkProfile "a.go" "set" [mkBlock 10 0 20 0 5 0; mkBlock 10 3 20 7 5 0]))
    "10-20" = 1%nat.
Proof.
  apply (uncovered_ranges_duplicate_once reversed_order
           (mkProfile "a.go" "set" [mkBlock 10 0 20 0 5 0; mkBlock 10 3 20 7 5 0])
           0 1 (mkBlock 10 0 20 0 5 0) (mkBlock 10 3 20 7 5 0));
    [exact reversed_order_admissible | lia | reflexivity ..].
Defined.

(** The example of the specification: two identical zero-hit blocks
    (10,20,5,0) give the single range 10-20. *)
Example uncovered_ranges_10_20 (order : RangeOrder) `{!Admissible order} :
  uncovered_ranges order
    (mkProfile "a.go" "set" [mkBlock 10 0 20 0 5 0; mkBlock 10 0 20 0 5 0])
  = ["10-20"].
Proof.
  unfold uncovered_ranges. rewrite removeArrayDuplicates_order.
  apply Permutation_singleton_r. rewrite (admissible _). reflexivity.
Qed.

(** Rewriting the statement counts of the blocks changes no range. *)
Lemma uncoverdLines_loop_NumStmt (f : ProfileBlock → Z) (blocks : list ProfileBlock) :
  uncoverdLines_loop
    ((λ b, mkBlock (StartLine b) (StartCol b) (EndLine b) (EndCol b) (f b) (Count b))
       <$> blocks) []
  = uncoverdLines_loop blocks [].
Proof.
  rewrite !uncoverdLines_loop_spec, !app_nil_l.
  induction blocks as [|x l IH]; [reflexivity|].
  rewrite fmap_cons, !filter_cons. cbn [Count].
  case_decide; rewrite ?fmap_cons, IH; reflexivity.
Qed.

(** C6: a block with a count of zero and no statement still has its range
    emitted; more generally the emitted ranges do not depend on the statement
    counts at all. *)
Theorem uncovered_ranges_zero_statements (order : RangeOrder) (p : Profile)
    (b : ProfileBlock) :
  Admissible order →
  b ∈ Blocks p → Count b = 0 → NumStmt b = 0 →
  Sprintf_range b ∈ uncovered_ranges order p
  ∧ ∀ f : ProfileBlock → Z,
      uncoverdLines_loop
        ((λ b, mkBlock (StartLine b) (StartCol b) (EndLine b) (EndCol b) (f b) (Count b))
           <$> Blocks p) []
      = uncoverdLines_loop (Blocks p) [].
Proof.
  intros Hadm Hb Hc _. split.
  - apply (elem_of_uncovered_ranges order). eauto.
  - intros f. apply uncoverdLines_loop_NumStmt.
Qed.

Lemma uncovered_ranges_zero_statements_witness :
  let p := mkProfile "a.go" "set" [mkBlock 1 0 5 0 3 2; mkBlock 7 0 9 0 0 0] in
  "7-9" ∈ uncovered_ranges canonical_order p
  ∧ ∀ f : ProfileBlock → Z,
      uncoverdLines_loop
        ((λ b, mkBlock (StartLine b) (StartCol b) (EndLine b) (EndCol b) (f b) (Count b))
           <$> Blocks p) []
      = uncoverdLines_loop (Blocks p) [].
Proof.
  apply (uncovered_ranges_zero_statements canonical_order
           (mkProfile "a.go" "set" [mkBlock 1 0 5 0 3 2; mkBlock 7 0 9 0 0 0])
           (mkBlock 7 0 9 0 0 0));
    [exact canonical_order_admissible | | reflexivity | reflexivity].
  apply list_elem_of_lookup. exists 1%nat. reflexivity.
Defined.

(** C10: a block whose count is negative adds its statements to [total] and
    not to [covered], and its range is not appended to the uncovered lines,
    wherever the block stands among the others. *)
Theorem negative_count_block (b : ProfileBlock) (before after : list ProfileBlock) :
  Count b < 0 →
  percentCovered_loop (before ++ b :: after)
  = (Int64.add (percentCovered_loop (before ++ after)).1 (Int64.wrap (NumStmt b)),
     (percentCovered_loop (before ++ after)).2)
  ∧ uncoverdLines_loop (before ++ b :: after) []
    = uncoverdLines_loop (before ++ after) [].
Proof.
  intros Hb. split.
  - rewrite !percentCovered_loop_spec. cbn [fst snd].
    rewrite Int64Facts.add_wrap, !total_stmts_app, !covered_stmts_app.
    rewrite total_stmts_cons, covered_stmts_cons.
    destruct (Z.ltb_spec 0 (Count b)); [lia|]. f_equal; f_equal; lia.
  - rewrite !uncoverdLines_loop_spec, !app_nil_l, !filter_app, filter_cons.
    case_decide; [lia | reflexivity].
Qed.

Lemma negative_count_block_witness :
  percentCovered_loop [mkBlock 1 0 5 0 3 2; mkBlock 6 0 7 0 4 (-1); mkBlock 8 0 9 0 1 0]
  = (8, 3)
  ∧ uncoverdLines_loop
      [mkBlock 1 0 5 0 3 2; mkBlock 6 0 7 0 4 (-1); mkBlock 8 0 9 0 1 0] []
    = ["8-9"].
Proof.
  apply (negative_count_block (mkBlock 6 0 7 0 4 (-1))
           [mkBlock 1 0 5 0 3 2] [mkBlock 8 0 9 0 1 0]).
  cbn. lia.
Defined.

(** * The report assembler *)

Section AssemblerFacts.

Variable ParseProfiles : string → list Profile * option error.
Variable filepath_Split : string → string * string.
Variable filepath_Join : string → string → string.
Variable build_Import : string → string * option error.
Variable ReadFile : string → string * option error.
Variable orders : nat → RangeOrder.

Local Abbreviation loop :=
  (getTemplateData_loop filepath_Split filepath_Join build_Import ReadFile orders).
Local Abbreviation run :=
  (getTemplateData ParseProfiles filepath_Split filepath_Join build_Import
                   ReadFile orders).

(** A run of the loop that ends without error has appended one file per
    profile, in order, and has raised the flag exactly when it was raised
    before or a profile is in set mode. *)
Lemma getTemplateData_loop_ok profiles : ∀ k d d',
  loop k profiles d = (d', None) →
  ∃ files, Files d' = Files d ++ files
           ∧ built k profiles files
           ∧ Set_ d' = Set_ d || any_set profiles.
Proof.
  induction profiles as [|p profiles IH]; intros k d d' Hrun.
  - cbn in Hrun. injection Hrun as <-. exists []. rewrite app_nil_r, orb_false_r.
    repeat split. intros i p Hi. by rewrite lookup_nil in Hi.
  - cbn [getTemplateData_loop] in Hrun.
    set (d1 := if String.eqb (Mode p) "set" then mkData (Files d) true else d) in Hrun.
    assert (Files d1 = Files d ∧ Set_ d1 = Set_ d || String.eqb (Mode p) "set")
      as [HF1 HS1].
    { subst d1. destruct (String.eqb (Mode p) "set"); cbn;
        [by rewrite orb_true_r | by rewrite orb_false_r]. }
    destruct (findFile _ _ _ _) as [file [err|]]; [discriminate|].
    destruct (ReadFile file) as [src [err|]]; [discriminate|].
    destruct (htmlGen _ src p) as [buf [err|]]; [discriminate|].
    apply IH in Hrun as (files & HF & [Hlen Hfiles] & Hset). cbn [Files Set_] in *.
    exists (mkFile (FileName p) buf (percentCovered p) (Z.of_nat k) :: files).
    split; [by rewrite HF, HF1, <- app_assoc|]. split; [split|].
    + cbn. by rewrite Hlen.
    + intros [|i] q Hi; cbn in Hi.
      * injection Hi as <-. eexists. split; [reflexivity|].
        cbn. by rewrite Nat.add_0_r.
      * destruct (Hfiles i q Hi) as (f & Hf & Hid & Hrest).
        exists f. split; [exact Hf|]. split; [|exact Hrest].
        rewrite Hid. f_equal. lia.
    + rewrite Hset, HS1. cbn [any_set existsb]. by rewrite orb_assoc.
Qed.

Lemma getTemplateData_ok profile profiles d :
  ParseProfiles profile = (profiles, None) →
  run profile = (d, None) →
  built 0 profiles (Files d) ∧ Set_ d = any_set profiles.
Proof.
  unfold getTemplateData. intros -> Hrun.
  apply getTemplateData_loop_ok in Hrun as (files & -> & Hb & ->). by split.
Qed.

Lemma any_set_true profiles :
  any_set profiles = true ↔ ∃ p, p ∈ profiles ∧ Mode p = "set".
Proof.
  unfold any_set. rewrite existsb_exists. split.
  - intros (p & Hin & Heq). exists p. split; [by apply list_elem_of_In|].
    by apply String.eqb_eq.
  - intros (p & Hin & Heq). exists p. split; [by apply list_elem_of_In|].
    by apply String.eqb_eq.
Qed.

End AssemblerFacts.

(** C8: when a profile is parsed and the report assembled, the flag [Set] of
    the report is true if and only if some file profile has mode [set]; in
    particular profiles of mode [count] or [atomic] leave it false. *)
Theorem getTemplateData_Set ParseProfiles filepath_Split filepath_Join build_Import
    ReadFile orders (profile : string) (profiles : list Profile) (d : templateData) :
  ParseProfiles profile = (profiles, None) →
  getTemplateData ParseProfiles filepath_Split filepath_Join build_Import ReadFile
                  orders profile = (d, None) →
  (Set_ d = true ↔ ∃ p, p ∈ profiles ∧ Mode p = "set")
  ∧ ((∀ p, p ∈ profiles → Mode p = "count" ∨ Mode p = "atomic") → Set_ d = false).
Proof.
  intros Hparse Hrun.
  destruct (getTemplateData_ok _ _ _ _ _ _ _ _ _ Hparse Hrun) as [_ ->].
  split; [apply any_set_true|].
  intros Hmodes. apply not_true_is_false. intros Hset.
  apply any_set_true in Hset as (p & Hin & Hmode).
  destruct (Hmodes p Hin) as [H|H]; rewrite H in Hmode; discriminate.
Qed.

(** C9: the assembled report has one file per input profile, in input order,
    and the file at position [k] carries the name and the coverage of the
    [k]-th profile and the ID [k], counting from 0. *)
Theorem getTemplateData_order ParseProfiles filepath_Split filepath_Join build_Import
    ReadFile orders (profile : string) (profiles : list Profile) (d : templateData) :
  ParseProfiles profile = (profiles, None) →
  getTemplateData ParseProfiles filepath_Split filepath_Join build_Import ReadFile
                  orders profile = (d, None) →
  length (Files d) = length profiles
  ∧ ∀ k p, profiles !! k = Some p →
      ∃ f, Files d !! k = Some f
           ∧ ID f = Z.of_nat k
           ∧ Name f = FileName p
           ∧ Coverage f = percentCovered p.
Proof.
  intros Hparse Hrun.
  destruct (getTemplateData_ok _ _ _ _ _ _ _ _ _ Hparse Hrun) as [[Hlen Hfiles] _].
  split; [exact Hlen|]. intros k p Hk. exact (Hfiles k p Hk).
Qed.

Lemma getTemplateData_Set_witness :
  (Set_ Sample.report = true ↔ ∃ p, p ∈ Sample.profiles ∧ Mode p = "set")
  ∧ ((∀ p, p ∈ Sample.profiles → Mode p = "count" ∨ Mode p = "atomic") →
     Set_ Sample.report = false).
Proof.
  apply (getTemplateData_Set Sample.ParseProfiles Sample.filepath_Split
           Sample.filepath_Join Sample.build_Import Sample.ReadFile Sample.orders
           "cover.out" Sample.profiles Sample.report); reflexivity.
Defined.

Lemma getTemplateData_order_witness :
  length (Files Sample.report) = length Sample.profiles
  ∧ ∀ k p, Sample.profiles !! k = Some p →
      ∃ f, Files Sample.report !! k = Some f
           ∧ ID f = Z.of_nat k
           ∧ Name f = FileName p
           ∧ Coverage f = percentCovered p.
Proof.
  apply (getTemplateData_order Sample.ParseProfiles Sample.filepath_Split
           Sample.filepath_Join Sample.build_Import Sample.ReadFile Sample.orders
           "cover.out" Sample.profiles Sample.report); reflexivity.
Defined.

Example sample_report :
  Sample.report
  = mkData [mkFile "pkg/a.go"
              (html_format "1-5" "package pkg") 40 0;
            mkFile "pkg/b.go"
              (html_format "" "package pkg") 100 1] true.
Proof. reflexivity. Qed.
(** * Finite percentages *)

Module PercentFacts.

Import Rounding RoundingFacts Binary64.

(** The sign of a rounded number is the sign given to the rounder. *)
Lemma binary_round_aux_sign s m e l :
  binary_round_aux prec emax s m e l
  = if s then SFopp (binary_round_aux prec emax false m e l)
    else binary_round_aux prec emax false m e l.
Proof.
  destruct s; [|reflexivity]. unfold binary_round_aux.
  destruct (shr_fexp prec emax m e l) as [mrs' e'].
  destruct (shr_fexp prec emax _ e' loc_Exact) as [mrs'' e''].
  destruct (shr_m mrs''); [reflexivity| |reflexivity].
  destruct (e'' <=? emax - prec); reflexivity.
Qed.

Lemma Prim2SF_of_int64_normal z :
  Int64.in_range z → z ≠ 0 → normal (z <? 0) (-52) 11 (Prim2SF (Float64.of_int64 z)).
Proof.
  unfold Int64.in_range, Int64.min_int, Int64.max_int. intros Hz Hne.
  destruct (Z.eq_dec z (- 2 ^ 63)) as [->|Hmin].
  { exists (Z.to_pos (2 ^ 52)), 11. split; [reflexivity|]. split; [cbn; lia|lia]. }
  destruct (Z.ltb_spec z 0) as [Hneg|Hpos].
  - unfold Float64.of_int64, Int64.min_int.
    destruct (Z.eqb_spec z (- 2 ^ 63)); [lia|]. destruct (Z.ltb_spec z 0); [|lia].
    rewrite opp_spec, of_uint63_spec, Uint63.of_Z_spec, Z.mod_small
      by (change Uint63.wB with (2 ^ 63); lia).
    destruct (binary_normalize_int (- z) ltac:(lia)) as (m & e & -> & Hm & He & _).
    exists m, e. split; [reflexivity|]. split; [exact Hm|lia].
  - rewrite Prim2SF_of_int64 by (unfold Int64.max_int; lia).
    destruct (binary_normalize_int z ltac:(lia)) as (m & e & -> & Hm & He & _).
    exists m, e. split; [reflexivity|]. split; [exact Hm|lia].
Qed.

(** The quotient of two normal numbers with exponents between -52 and 11 is
    a normal number. *)
Lemma SFdiv_normal sx mx ex sy my ey :
  2 ^ 52 <= Z.pos mx < 2 ^ 53 → 2 ^ 52 <= Z.pos my < 2 ^ 53 →
  -52 <= ex <= 11 → -52 <= ey <= 11 →
  normal (xorb sx sy) (-117) 12
    (SFdiv prec emax (S754_finite sx mx ex) (S754_finite sy my ey)).
Proof.
  intros Hmx Hmy Hex Hey.
  cbn [SFdiv]. unfold SFdiv_core_binary.
  rewrite !(Zdigits2_unique (Z.pos _) 53) by lia.
  unfold fexp. change (SpecFloat.emin prec emax) with (-1074).
  rewrite Z.max_l, Z.min_l by (change prec with 53; lia).
  replace (ex - ey - (53 + ex - (53 + ey) - prec)) with 53 by (change prec with 53; lia).
  rewrite Z.shiftl_mul_pow2 by lia.
  set (num := Z.pos mx * 2 ^ 53).
  replace (53 + ex - (53 + ey) - prec) with (ex - ey - 53) by (change prec with 53; lia).
  set (E := ex - ey - 53).
  destruct (Z.div_eucl num (Z.pos my)) as [q r] eqn:Eqr.
  assert (q = num / Z.pos my) as -> by (unfold Z.div; by rewrite Eqr).
  assert (r = num mod Z.pos my) as -> by (unfold Z.modulo; by rewrite Eqr).
  rewrite new_location_loc_frac by (try apply Z.mod_pos_bound; lia).
  pose proof (Z.div_mod num (Z.pos my) ltac:(lia)) as Hdm.
  pose proof (Z.mod_pos_bound num (Z.pos my) ltac:(lia)) as Hmod.
  assert (2 ^ 52 <= num / Z.pos my < 2 ^ 54) as Hq by (subst num; nia).
  rewrite binary_round_aux_sign.
  assert (∃ n, 0 <= n <= 1 ∧ Zdigits2 (num / Z.pos my) = 53 + n) as (n & Hn & Hd).
  { destruct (Z.lt_ge_cases (num / Z.pos my) (2 ^ 53)).
    - exists 0. split; [lia|]. apply Zdigits2_unique; lia.
    - exists 1. split; [lia|]. apply Zdigits2_unique; lia. }
  destruct (binary_round_aux_normal num (Z.pos my) E n) as [-> HN]; try lia.
  { binary64_bounds. } { binary64_bounds. }
  destruct (renormalize_finite _ (E + n) HN) as (m & e & -> & Hm & Hcase).
  exists m, e. split; [by destruct (xorb sx sy)|]. split; [exact Hm|].
  destruct Hcase as [(? & ? & ->)|(? & ? & ->)]; lia.
Qed.

(** A normal number divided by itself is 1. *)
Lemma SFdiv_self s m e :
  2 ^ 52 <= Z.pos m < 2 ^ 53 → -52 <= e <= 11 →
  SFdiv prec emax (S754_finite s m e) (S754_finite s m e) = Prim2SF 1.
Proof.
  intros Hm He. cbn [SFdiv]. unfold SFdiv_core_binary.
  rewrite !(Zdigits2_unique (Z.pos _) 53) by lia.
  unfold fexp. change (SpecFloat.emin prec emax) with (-1074).
  rewrite Z.max_l, Z.min_l by (change prec with 53; lia).
  replace (e - e - (53 + e - (53 + e) - prec)) with 53 by (change prec with 53; lia).
  rewrite Z.shiftl_mul_pow2 by lia.
  replace (53 + e - (53 + e) - prec) with (-53) by (change prec with 53; lia).
  set (num := Z.pos m * 2 ^ 53).
  destruct (Z.div_eucl num (Z.pos m)) as [q r] eqn:Eqr.
  assert (q = num / Z.pos m) as -> by (unfold Z.div; by rewrite Eqr).
  assert (r = num mod Z.pos m) as -> by (unfold Z.modulo; by rewrite Eqr).
  rewrite new_location_loc_frac by (try apply Z.mod_pos_bound; lia).
  assert (num / Z.pos m = 2 ^ 53) as Hq.
  { subst num. rewrite Z.mul_comm. apply Z.div_mul. lia. }
  rewrite xorb_nilpotent.
  destruct (binary_round_aux_normal num (Z.pos m) (-53) 1) as [-> HN]; try lia.
  { rewrite Hq. reflexivity. }
  { binary64_bounds. } { binary64_bounds. }
  replace (round_half_even num (Z.pos m * 2 ^ 1)) with (2 ^ 52); [reflexivity|].
  symmetry. subst num. change (2 ^ 53) with (2 ^ 52 * 2 ^ 1).
  rewrite (Z.mul_comm (Z.pos m)), <- Z.mul_assoc, (Z.mul_comm (2 ^ 1)).
  apply round_half_even_exact. lia.
Qed.

(** The product of a normal number, of exponent between -117 and 12, by 100
    is a normal number. *)
Lemma SFmul_100_normal s mq eq :
  2 ^ 52 <= Z.pos mq < 2 ^ 53 → -117 <= eq <= 12 →
  normal s (-111) 20
    (SFmul prec emax (S754_finite s mq eq) (S754_finite false mantissa_100 (-46))).
Proof.
  intros Hmq Heq. cbn [SFmul]. rewrite xorb_false_r, Pos2Z.inj_mul.
  change (Z.pos mantissa_100) with (25 * 2 ^ 48).
  set (num := Z.pos mq * (25 * 2 ^ 48)).
  assert (25 * 2 ^ 100 <= num < 25 * 2 ^ 101) as Hnum by (subst num; lia).
  rewrite binary_round_aux_sign.
  replace (binary_round_aux prec emax false num (eq + -46) loc_Exact)
    with (binary_round_aux prec emax false (num / 1) (eq + -46) (loc_frac (num mod 1) 1))
    by (rewrite Z.div_1_r, Z.mod_1_r; reflexivity).
  assert (∃ n, 52 <= n <= 53 ∧ Zdigits2 (num / 1) = 53 + n) as (n & Hn & Hd).
  { rewrite Z.div_1_r. destruct (Z.lt_ge_cases num (2 ^ 105)).
    - exists 52. split; [lia|]. apply Zdigits2_unique; lia.
    - exists 53. split; [lia|]. apply Zdigits2_unique; lia. }
  destruct (binary_round_aux_normal num 1 (eq + -46) n) as [-> HN]; try lia.
  { binary64_bounds. } { binary64_bounds. }
  destruct (renormalize_finite _ (eq + -46 + n) HN) as (m & e & -> & Hm & Hcase).
  exists m, e. split; [by destruct s|]. split; [exact Hm|].
  destruct Hcase as [(? & ? & ->)|(? & ? & ->)]; lia.
Qed.

(** A float whose specification is a finite number or a zero is finite. *)
Lemma is_finite_normal x s lo hi : normal s lo hi (Prim2SF x) → is_finite x = true.
Proof.
  intros (m & e & Hx & _). unfold is_finite, is_nan, is_infinity.
  rewrite !FloatAxioms.eqb_spec, abs_spec, Hx. cbn [SFabs].
  unfold SFeqb, SFcompare. rewrite Z.compare_refl, Pos.compare_cont_refl.
  destruct s; reflexivity.
Qed.

Lemma is_finite_zero x s : Prim2SF x = S754_zero s → is_finite x = true.
Proof.
  intros Hx. unfold is_finite, is_nan, is_infinity.
  rewrite !FloatAxioms.eqb_spec, abs_spec, Hx. reflexivity.
Qed.

Lemma Prim2SF_of_int64_0 : Prim2SF (Float64.of_int64 0) = S754_zero false.
Proof. reflexivity. Qed.

(** The percentage of any two counters, the second one not 0, is a finite
    number. *)
Lemma percent_of_finite covered total :
  Int64.in_range covered → Int64.in_range total → total ≠ 0 →
  is_finite (percent_of covered total) = true.
Proof.
  intros Hc Ht Hne. unfold percent_of.
  destruct (Prim2SF_of_int64_normal total Ht Hne) as (my & ey & Hy & Hmy & Hey).
  destruct (Z.eq_dec covered 0) as [->|Hc0].
  - apply (is_finite_zero _ (xorb (xorb false (total <? 0)) false)).
    rewrite mul_spec, div_spec, Prim2SF_of_int64_0, Hy, Prim2SF_100. reflexivity.
  - destruct (Prim2SF_of_int64_normal covered Hc Hc0) as (mx & ex & Hx & Hmx & Hex).
    destruct (SFdiv_normal (covered <? 0) mx ex (total <? 0) my ey Hmx Hmy Hex Hey)
      as (mq & eq & Hq & Hmq & Heq).
    eapply is_finite_normal.
    rewrite mul_spec, div_spec, Hx, Hy, Prim2SF_100. unfold SF64div. rewrite Hq.
    apply SFmul_100_normal; lia.
Qed.

End PercentFacts.

(** * More on the counters *)

Section MoreCounters.

Lemma sum_Z_Permutation (l k : list Z) : l ≡ₚ k → sum_Z l = sum_Z k.
Proof. induction 1; cbn [sum_Z]; lia. Qed.

Lemma total_stmts_Permutation l k : l ≡ₚ k → total_stmts l = total_stmts k.
Proof. intros H. unfold total_stmts. apply sum_Z_Permutation. by rewrite H. Qed.

Lemma covered_stmts_Permutation l k : l ≡ₚ k → covered_stmts l = covered_stmts k.
Proof. intros H. unfold covered_stmts. apply sum_Z_Permutation. by rewrite H. Qed.

Lemma covered_stmts_all_hit blocks :
  Forall (λ b, 0 < Count b) blocks → covered_stmts blocks = total_stmts blocks.
Proof.
  induction 1 as [|b blocks Hb _ IH]; [reflexivity|].
  rewrite covered_stmts_cons, total_stmts_cons, IH.
  destruct (Z.ltb_spec 0 (Count b)); [reflexivity|lia].
Qed.

Lemma covered_stmts_none_hit blocks :
  Forall (λ b, Count b <= 0) blocks → covered_stmts blocks = 0.
Proof.
  induction 1 as [|b blocks Hb _ IH]; [reflexivity|].
  rewrite covered_stmts_cons, IH.
  destruct (Z.ltb_spec 0 (Count b)); [lia|reflexivity].
Qed.

Lemma sums_without_empty_blocks blocks :
  total_stmts (filter (λ b, NumStmt b ≠ 0) blocks) = total_stmts blocks
  ∧ covered_stmts (filter (λ b, NumStmt b ≠ 0) blocks) = covered_stmts blocks.
Proof.
  induction blocks as [|b blocks [IHt IHc]]; [done|].
  rewrite filter_cons. case_decide as Hb.
  - rewrite !total_stmts_cons, !covered_stmts_cons, IHt, IHc. done.
  - rewrite !total_stmts_cons, !covered_stmts_cons, IHt, IHc.
    assert (NumStmt b = 0) as -> by lia. destruct (0 <? Count b); done.
Qed.

Lemma uncoverdLines_loop_nil blocks :
  uncoverdLines_loop blocks [] = [] ↔ Forall (λ b, Count b ≠ 0) blocks.
Proof.
  rewrite Forall_forall. split.
  - intros Hnil b Hb Hc.
    assert (Sprintf_range b ∈ uncoverdLines_loop blocks []) as Hin
      by (apply elem_of_uncoverdLines; eauto).
    rewrite Hnil in Hin. by apply not_elem_of_nil in Hin.
  - intros Hall. destruct (uncoverdLines_loop blocks []) as [|s l] eqn:E; [done|].
    assert (s ∈ uncoverdLines_loop blocks []) as Hin by (rewrite E; left).
    apply elem_of_uncoverdLines in Hin as (b & Hb & Hc & _). by destruct (Hall b Hb).
Qed.

End MoreCounters.

(** X1: [percentCovered] returns a finite number for every profile: never
    NaN, never an infinity, whatever the counts are. *)
Theorem percentCovered_finite (p : Profile) : is_finite (percentCovered p) = true.
Proof.
  rewrite percentCovered_unfold.
  destruct (Z.eqb_spec (Int64.wrap (total_stmts (Blocks p))) 0) as [|Hne]; [reflexivity|].
  apply PercentFacts.percent_of_finite; [apply Int64Facts.wrap_in_range ..|exact Hne].
Qed.

(** X2: when every block of a profile was hit and the [int64] total of the
    statements is not 0, [percentCovered] is exactly 100 and [htmlGen] finds
    no uncovered line. *)
Theorem percentCovered_all_hit (p : Profile) :
  Forall (λ b, 0 < Count b) (Blocks p) →
  Int64.wrap (total_stmts (Blocks p)) ≠ 0 →
  percentCovered p = 100%float ∧ uncoverdLines_loop (Blocks p) [] = [].
Proof.
  intros Hall Hne. split.
  - rewrite percentCovered_unfold, covered_stmts_all_hit by exact Hall.
    destruct (Z.eqb_spec (Int64.wrap (total_stmts (Blocks p))) 0) as [|_]; [done|].
    unfold percent_of.
    destruct (PercentFacts.Prim2SF_of_int64_normal _
                (Int64Facts.wrap_in_range (total_stmts (Blocks p))) Hne)
      as (m & e & Hx & Hm & He).
    replace (Float64.of_int64 (Int64.wrap (total_stmts (Blocks p)))
             / Float64.of_int64 (Int64.wrap (total_stmts (Blocks p))))%float
      with 1%float; [reflexivity|].
    apply Prim2SF_inj. rewrite div_spec, Hx. symmetry.
    by apply PercentFacts.SFdiv_self.
  - apply uncoverdLines_loop_nil. eapply Forall_impl; [exact Hall|]. cbn. lia.
Qed.

Lemma percentCovered_all_hit_witness :
  let p := mkProfile "a.go" "count" [mkBlock 1 0 5 0 3 2; mkBlock 6 0 7 0 4 1] in
  percentCovered p = 100%float ∧ uncoverdLines_loop (Blocks p) [] = [].
Proof.
  apply (percentCovered_all_hit
           (mkProfile "a.go" "count" [mkBlock 1 0 5 0 3 2; mkBlock 6 0 7 0 4 1])).
  - cbn [Blocks]. repeat constructor; cbn [Count]; lia.
  - vm_compute. discriminate.
Defined.

(** X3: when no block of a profile was hit, [percentCovered] compares equal
    to 0 (it is 0, or -0 when the [int64] total is negative). *)
Theorem percentCovered_none_hit (p : Profile) :
  Forall (λ b, Count b <= 0) (Blocks p) →
  (percentCovered p =? 0)%float = true.
Proof.
  intros Hall. rewrite percentCovered_unfold, covered_stmts_none_hit by exact Hall.
  destruct (Z.eqb_spec (Int64.wrap (total_stmts (Blocks p))) 0) as [|Hne]; [reflexivity|].
  unfold percent_of.
  destruct (PercentFacts.Prim2SF_of_int64_normal _
              (Int64Facts.wrap_in_range (total_stmts (Blocks p))) Hne)
    as (m & e & Hx & Hm & He).
  rewrite FloatAxioms.eqb_spec, mul_spec, div_spec, Hx.
  change (Int64.wrap 0) with 0. rewrite PercentFacts.Prim2SF_of_int64_0.
  reflexivity.
Qed.

Lemma percentCovered_none_hit_witness :
  (percentCovered
     (mkProfile "a.go" "count" [mkBlock 1 0 5 0 3 0; mkBlock 6 0 7 0 (-4) (-1)])
   =? 0)%float = true.
Proof.
  apply (percentCovered_none_hit
           (mkProfile "a.go" "count" [mkBlock 1 0 5 0 3 0; mkBlock 6 0 7 0 (-4) (-1)])).
  cbn [Blocks]. repeat constructor; cbn [Count]; lia.
Defined.

(** X4: [percentCovered] does not depend on the order of the blocks. *)
Theorem percentCovered_Permutation (p q : Profile) :
  Blocks p ≡ₚ Blocks q → percentCovered p = percentCovered q.
Proof.
  intros H. rewrite !percentCovered_unfold.
  by rewrite (total_stmts_Permutation _ _ H), (covered_stmts_Permutation _ _ H).
Qed.

Lemma percentCovered_Permutation_witness :
  percentCovered (mkProfile "a.go" "count" [mkBlock 1 0 5 0 3 0; mkBlock 6 0 10 0 2 2])
  = percentCovered (mkProfile "a.go" "count" [mkBlock 6 0 10 0 2 2; mkBlock 1 0 5 0 3 0]).
Proof.
  apply (percentCovered_Permutation
           (mkProfile "a.go" "count" [mkBlock 1 0 5 0 3 0; mkBlock 6 0 10 0 2 2])
           (mkProfile "a.go" "count" [mkBlock 6 0 10 0 2 2; mkBlock 1 0 5 0 3 0])).
  cbn [Blocks]. apply perm_swap.
Defined.

(** X5: blocks without statements do not count: dropping them from a profile
    leaves [percentCovered] as it is (while [htmlGen] still prints their
    ranges when they were not hit). *)
Theorem percentCovered_ignores_empty_blocks (p : Profile) :
  percentCovered (mkProfile (FileName p) (Mode p) (filter (λ b, NumStmt b ≠ 0) (Blocks p)))
  = percentCovered p.
Proof.
  rewrite !percentCovered_unfold. cbn [Blocks].
  destruct (sums_without_empty_blocks (Blocks p)) as [-> ->]. reflexivity.
Qed.

(** * Reading a range back *)

Module DecimalFacts.

Import Decimal.

Lemma pretty_N_char_digit n : is_digit (pretty_N_char n) = true.
Proof.
  destruct n as [|p]; [reflexivity|].
  do 4 (try destruct p as [p|p|]); reflexivity.
Qed.

Lemma app_nil_string (s : string) : "" +:+ s = s.
Proof. reflexivity. Qed.

Lemma app_cons_string c (a s : string) : String c a +:+ s = String c (a +:+ s).
Proof. reflexivity. Qed.

Lemma all_digits_app d1 d2 : all_digits d1 → all_digits d2 → all_digits (d1 +:+ d2).
Proof.
  induction d1 as [|c d1 IH]; [done|]. rewrite app_cons_string.
  intros [? ?] ?. split; auto.
Qed.

Lemma app_assoc_string (a b c : string) : (a +:+ b) +:+ c = a +:+ (b +:+ c).
Proof.
  induction a as [|x a IH]; [reflexivity|]. by rewrite !app_cons_string, IH.
Qed.

(** The digits of a number are put in front of the accumulator. *)
Lemma pretty_N_go_digits x : ∀ s,
  ∃ d, pretty_N_go x s = d +:+ s ∧ all_digits d ∧ ((0 < x)%N → d ≠ "").
Proof.
  induction (N.lt_wf_0 x) as [x _ IH]. intros s.
  destruct (N.eq_dec x 0%N) as [->|Hx].
  - exists "". rewrite pretty_N_go_0. split; [done|]. split; [done|]. lia.
  - rewrite pretty_N_go_step by lia.
    destruct (IH (x `div` 10)%N) with (s := String (pretty_N_char (x `mod` 10)) s)
      as (d & -> & Hd & _).
    { apply N.div_lt; lia. }
    exists (d +:+ String (pretty_N_char (x `mod` 10)) "").
    split; [by rewrite app_assoc_string|]. split.
    + apply all_digits_app; [done|]. split; [apply pretty_N_char_digit|done].
    + intros _. by destruct d.
Qed.

(** A printed integer is an optional minus sign and at least one digit. *)
Lemma pretty_Z_shape (z : Z) :
  ∃ d, all_digits d ∧ d ≠ "" ∧ pretty z = (if z <? 0 then "-" else "") +:+ d.
Proof.
  assert (∀ p, ∃ d, all_digits d ∧ d ≠ "" ∧ pretty (N.pos p) = d) as Hpos.
  { intros p. unfold pretty, pretty_N. rewrite decide_False by done.
    destruct (pretty_N_go_digits (N.pos p) "") as (d & -> & Hd & Hne).
    exists d. split; [done|]. split; [apply Hne; lia|]. clear.
    induction d as [|c d IH]; [done|]. by rewrite app_cons_string, IH. }
  destruct z as [|p|p].
  - exists "0". repeat split; done.
  - destruct (Hpos p) as (d & Hd & Hne & Hp). exists d. repeat split; try done.
  - destruct (Hpos p) as (d & Hd & Hne & Hp). exists d. repeat split; try done.
    cbn. f_equal. exact Hp.
Qed.

(** Digits, a dash, and the rest: the digits end at the first dash. *)
Lemma digits_dash_inj d1 : ∀ d2 r1 r2,
  all_digits d1 → all_digits d2 →
  d1 +:+ "-" +:+ r1 = d2 +:+ "-" +:+ r2 → d1 = d2 ∧ r1 = r2.
Proof.
  induction d1 as [|c1 d1 IH]; intros [|c2 d2] r1 r2 H1 H2 Heq;
    repeat (rewrite app_nil_string in Heq || rewrite app_cons_string in Heq).
  - injection Heq as ->. done.
  - injection Heq as <- _. by destruct H2 as [? _].
  - injection Heq as -> _. by destruct H1 as [? _].
  - injection Heq as -> Heq. destruct H1 as [_ H1], H2 as [_ H2].
    destruct (IH d2 r1 r2 H1 H2 Heq) as [-> ->]. done.
Qed.

(** [%d-%d] can be read back: the two integers are determined by the string. *)
Lemma Sprintf_range_inj (b1 b2 : ProfileBlock) :
  Sprintf_range b1 = Sprintf_range b2 ↔
  StartLine b1 = StartLine b2 ∧ EndLine b1 = EndLine b2.
Proof.
  unfold Sprintf_range. split; [|by intros [-> ->]].
  intros Heq.
  destruct (pretty_Z_shape (StartLine b1)) as (d1 & Hd1 & Hn1 & E1).
  destruct (pretty_Z_shape (StartLine b2)) as (d2 & Hd2 & Hn2 & E2).
  assert (d1 = d2 ∧ pretty (EndLine b1) = pretty (EndLine b2)
          ∧ (StartLine b1 <? 0) = (StartLine b2 <? 0)) as (-> & He & Hs).
  { rewrite E1, E2 in Heq.
    destruct d1 as [|c1 d1]; [done|]. destruct d2 as [|c2 d2]; [done|].
    destruct (StartLine b1 <? 0), (StartLine b2 <? 0);
      rewrite !app_assoc_string in Heq;
      repeat (rewrite app_nil_string in Heq || rewrite app_cons_string in Heq).
    - injection Heq as Hc Heq.
      destruct (digits_dash_inj d1 d2 _ _ (proj2 Hd1) (proj2 Hd2) Heq) as [? ?].
      by subst.
    - injection Heq as <- _. by destruct Hd2 as [? _].
    - injection Heq as -> _. by destruct Hd1 as [? _].
    - injection Heq as Hc Heq.
      destruct (digits_dash_inj d1 d2 _ _ (proj2 Hd1) (proj2 Hd2) Heq) as [? ?].
      by subst. }
  split; apply (inj pretty); [|exact He]. rewrite E1, E2, Hs. reflexivity.
Qed.

End DecimalFacts.

(** * More on the extractor *)

(** X6: for any iteration order of the map, [removeArrayDuplicates] returns
    at most as many strings as it was given; it returns a permutation of its
    argument exactly when the argument has no duplicate; and applying it a
    second time changes nothing but, possibly, the order. *)
Theorem removeArrayDuplicates_Permutation (order order' : RangeOrder) (e : list string) :
  Admissible order → Admissible order' →
  (length (removeArrayDuplicates order e) <= length e)%nat
  ∧ (NoDup e ↔ removeArrayDuplicates order e ≡ₚ e)
  ∧ removeArrayDuplicates order' (removeArrayDuplicates order e)
    ≡ₚ removeArrayDuplicates order e.
Proof.
  intros Hadm Hadm'.
  pose proof (removeArrayDuplicates_NoDup order e) as Hnd.
  assert (∀ l, NoDup l → removeArrayDuplicates order' l ≡ₚ l) as Hperm.
  { intros l Hl. apply NoDup_Permutation; [|done|].
    - apply (removeArrayDuplicates_NoDup order').
    - intros s. apply (elem_of_removeArrayDuplicates order'). }
  split; [|split].
  - apply submseteq_length, NoDup_submseteq; [done|].
    intros s. by rewrite (elem_of_removeArrayDuplicates order).
  - split.
    + intros He. apply NoDup_Permutation; [done..|].
      intros s. apply (elem_of_removeArrayDuplicates order).
    + intros <-. done.
  - by apply Hperm.
Qed.

Lemma removeArrayDuplicates_Permutation_witness :
  (length (removeArrayDuplicates canonical_order ["1-5"; "7-9"; "1-5"])
   <= length ["1-5"; "7-9"; "1-5"])%nat
  ∧ (NoDup ["1-5"; "7-9"; "1-5"]
     ↔ removeArrayDuplicates canonical_order ["1-5"; "7-9"; "1-5"]
       ≡ₚ ["1-5"; "7-9"; "1-5"])
  ∧ removeArrayDuplicates reversed_order
      (removeArrayDuplicates canonical_order ["1-5"; "7-9"; "1-5"])
    ≡ₚ removeArrayDuplicates canonical_order ["1-5"; "7-9"; "1-5"].
Proof.
  apply (removeArrayDuplicates_Permutation canonical_order reversed_order
           ["1-5"; "7-9"; "1-5"]);
    [exact canonical_order_admissible | exact reversed_order_admissible].
Defined.

(** X7: the [data-line] attribute is empty exactly when no block of the
    profile has a count of zero. *)
Theorem uncovered_ranges_nil (order : RangeOrder) (p : Profile) :
  Admissible order →
  uncovered_ranges order p = [] ↔ Forall (λ b, Count b ≠ 0) (Blocks p).
Proof.
  intros Hadm. rewrite Forall_forall. split.
  - intros Hnil b Hb Hc.
    assert (Sprintf_range b ∈ uncovered_ranges order p) as Hin
      by (apply (elem_of_uncovered_ranges order); eauto).
    rewrite Hnil in Hin. by apply not_elem_of_nil in Hin.
  - intros Hall. destruct (uncovered_ranges order p) as [|s l] eqn:E; [done|].
    assert (s ∈ uncovered_ranges order p) as Hin by (rewrite E; left).
    apply (elem_of_uncovered_ranges order) in Hin as (b & Hb & Hc & _).
    by destruct (Hall b Hb).
Qed.

Lemma uncovered_ranges_nil_witness :
  uncovered_ranges canonical_order
    (mkProfile "a.go" "count" [mkBlock 1 0 5 0 3 2; mkBlock 6 0 7 0 0 (-1)]) = []
  ↔ Forall (λ b, Count b ≠ 0) [mkBlock 1 0 5 0 3 2; mkBlock 6 0 7 0 0 (-1)].
Proof.
  apply (uncovered_ranges_nil canonical_order
           (mkProfile "a.go" "count" [mkBlock 1 0 5 0 3 2; mkBlock 6 0 7 0 0 (-1)])).
  exact canonical_order_admissible.
Defined.

(** X8: the set of emitted ranges depends neither on the order of the blocks
    nor on the iteration order of the map: two runs give permutations of one
    another. *)
Theorem uncovered_ranges_Permutation (order order' : RangeOrder) (p q : Profile) :
  Admissible order → Admissible order' →
  Blocks p ≡ₚ Blocks q →
  uncovered_ranges order p ≡ₚ uncovered_ranges order' q.
Proof.
  intros Hadm Hadm' Hperm. apply NoDup_Permutation.
  - apply (uncovered_ranges_NoDup order).
  - apply (uncovered_ranges_NoDup order').
  - intros s. rewrite (elem_of_uncovered_ranges order), (elem_of_uncovered_ranges order').
    split; intros (b & Hb & Hrest); exists b; (split; [|done]).
    + by rewrite <- Hperm.
    + by rewrite Hperm.
Qed.

Lemma uncovered_ranges_Permutation_witness :
  uncovered_ranges canonical_order
    (mkProfile "a.go" "set" [mkBlock 1 0 5 0 3 0; mkBlock 7 0 9 0 2 0])
  ≡ₚ uncovered_ranges reversed_order
       (mkProfile "a.go" "set" [mkBlock 7 0 9 0 2 0; mkBlock 1 0 5 0 3 0]).
Proof.
  apply (uncovered_ranges_Permutation canonical_order reversed_order
           (mkProfile "a.go" "set" [mkBlock 1 0 5 0 3 0; mkBlock 7 0 9 0 2 0])
           (mkProfile "a.go" "set" [mkBlock 7 0 9 0 2 0; mkBlock 1 0 5 0 3 0]));
    [exact canonical_order_admissible | exact reversed_order_admissible |].
  cbn [Blocks]. apply perm_swap.
Defined.

(** X9: two blocks print the same range exactly when they start and end on
    the same lines, so [htmlGen] emits one range for every distinct pair of
    lines among the blocks with a count of zero; columns and statement counts
    play no part. *)
Theorem uncovered_ranges_count (order : RangeOrder) (p : Profile) :
  Admissible order →
  (∀ b1 b2, Sprintf_range b1 = Sprintf_range b2 ↔ line_range b1 = line_range b2)
  ∧ length (uncovered_ranges order p)
    = length (remove_dups (line_range <$> filter (λ b, Count b = 0) (Blocks p))).
Proof.
  intros Hadm.
  assert (∀ b1 b2, Sprintf_range b1 = Sprintf_range b2 ↔ line_range b1 = line_range b2)
    as Hinj.
  { intros b1 b2. rewrite DecimalFacts.Sprintf_range_inj. unfold line_range.
    split; [by intros [-> ->]|by intros [= -> ->]]. }
  split; [exact Hinj|].
  set (fmt := λ r : Z * Z, Sprintf_range (mkBlock r.1 0 r.2 0 0 0)).
  assert (Inj eq eq fmt) as Hfmt.
  { intros [a1 a2] [c1 c2] H. apply Hinj in H. exact H. }
  rewrite <- (length_fmap fmt). apply Permutation_length, NoDup_Permutation.
  - apply (uncovered_ranges_NoDup order).
  - apply (NoDup_fmap_2 fmt), NoDup_remove_dups.
  - intros s. rewrite (elem_of_uncovered_ranges order), list_elem_of_fmap. split.
    + intros (b & Hb & Hc & ->). exists (line_range b). split; [reflexivity|].
      apply elem_of_remove_dups, list_elem_of_fmap. exists b. split; [done|].
      by apply list_elem_of_filter.
    + intros (r & -> & Hr). apply elem_of_remove_dups, list_elem_of_fmap in Hr
        as (b & -> & Hb). apply list_elem_of_filter in Hb as [Hc Hb].
      exists b. done.
Qed.

Lemma uncovered_ranges_count_witness :
  let p := mkProfile "a.go" "set"
             [mkBlock 10 2 20 3 5 0; mkBlock 10 7 20 1 0 0; mkBlock (-1) 0 (-2) 0 1 0;
              mkBlock 3 0 4 0 1 1] in
  (∀ b1 b2, Sprintf_range b1 = Sprintf_range b2 ↔ line_range b1 = line_range b2)
  ∧ length (uncovered_ranges canonical_order p) = 2%nat.
Proof.
  apply (uncovered_ranges_count canonical_order
           (mkProfile "a.go" "set"
              [mkBlock 10 2 20 3 5 0; mkBlock 10 7 20 1 0 0; mkBlock (-1) 0 (-2) 0 1 0;
               mkBlock 3 0 4 0 1 1])).
  exact canonical_order_admissible.
Defined.

(** * More on the assembler *)

Section AssemblerRuns.

Variable ParseProfiles : string → list Profile * option error.
Variable filepath_Split : string → string * string.
Variable filepath_Join : string → string → string.
Variable build_Import : string → string * option error.
Variable ReadFile : string → string * option error.
Variable orders : nat → RangeOrder.

Local Abbreviation loop :=
  (getTemplateData_loop filepath_Split filepath_Join build_Import ReadFile orders).
Local Abbreviation run :=
  (getTemplateData ParseProfiles filepath_Split filepath_Join build_Import
                   ReadFile orders).
Local Abbreviation source := (load filepath_Split filepath_Join build_Import ReadFile).
Local Abbreviation entry :=
  (file_of filepath_Split filepath_Join build_Import ReadFile orders).

(** One iteration of the loop, by what [load] answers. *)
Lemma getTemplateData_loop_cons k p profiles d :
  loop k (p :: profiles) d
  = let d1 := if String.eqb (Mode p) "set" then mkData (Files d) true else d in
    match (source (FileName p)).2 with
    | Some err => (d1, Some err)
    | None => loop (S k) profiles (mkData (Files d1 ++ [entry k p]) (Set_ d1))
    end.
Proof.
  cbn [getTemplateData_loop]. unfold file_of, load.
  destruct (findFile _ _ _ (FileName p)) as [file [err|]]; [reflexivity|].
  destruct (ReadFile file) as [src [err|]]; reflexivity.
Qed.

Lemma set_flag_fields (p : Profile) (d : templateData) :
  let d1 := if String.eqb (Mode p) "set" then mkData (Files d) true else d in
  Files d1 = Files d ∧ Set_ d1 = Set_ d || String.eqb (Mode p) "set".
Proof.
  destruct (String.eqb (Mode p) "set"); cbn;
    [by rewrite orb_true_r | by rewrite orb_false_r].
Qed.

Lemma any_set_app l1 l2 : any_set (l1 ++ l2) = any_set l1 || any_set l2.
Proof. apply existsb_app. Qed.

(** The loop on profiles whose sources all load. *)
Lemma getTemplateData_loop_all profiles : ∀ k d,
  (∀ p, p ∈ profiles → (source (FileName p)).2 = None) →
  loop k profiles d
  = (mkData (Files d ++ imap (λ i, entry (k + i)) profiles)
            (Set_ d || any_set profiles), None).
Proof.
  induction profiles as [|p profiles IH]; intros k d Hall.
  - cbn. rewrite app_nil_r, orb_false_r. by destruct d.
  - rewrite getTemplateData_loop_cons. cbv zeta.
    rewrite (Hall p) by left.
    destruct (set_flag_fields p d) as [HF HS].
    rewrite IH by (intros q Hq; apply Hall; by right).
    cbn [Files Set_]. rewrite HF, HS, <- app_assoc. cbn [app imap any_set existsb].
    rewrite Nat.add_0_r, <- orb_assoc. do 4 f_equal.
    apply imap_ext. intros i r _. cbn. f_equal. lia.
Qed.

(** The loop up to the first profile whose source does not load. *)
Lemma getTemplateData_loop_first_error pre : ∀ k d p post err,
  (∀ q, q ∈ pre → (source (FileName q)).2 = None) →
  (source (FileName p)).2 = Some err →
  loop k (pre ++ p :: post) d
  = (mkData (Files d ++ imap (λ i, entry (k + i)) pre)
            (Set_ d || any_set (pre ++ [p])), Some err).
Proof.
  induction pre as [|q pre IH]; intros k d p post err Hpre Hp.
  - cbn [app]. rewrite getTemplateData_loop_cons. cbv zeta. rewrite Hp.
    destruct (set_flag_fields p d) as [HF HS].
    cbn [imap]. rewrite app_nil_r. cbn [any_set existsb]. rewrite orb_false_r.
    clear. destruct (String.eqb (Mode p) "set"), d as [files set];
      cbn; by rewrite ?orb_true_r, ?orb_false_r.
  - rewrite <- app_comm_cons, getTemplateData_loop_cons. cbv zeta.
    rewrite (Hpre q) by left.
    destruct (set_flag_fields q d) as [HF HS].
    rewrite (IH _ _ p post err) by (first [intros r Hr; apply Hpre; by right | done]).
    cbn [Files Set_]. rewrite HF, HS, <- app_assoc.
    rewrite <- app_comm_cons. cbn [app imap any_set existsb].
    rewrite Nat.add_0_r, <- orb_assoc. do 4 f_equal.
    apply imap_ext. intros i r _. cbn. f_equal. lia.
Qed.

(** A run without error has loaded every source. *)
Lemma getTemplateData_loop_loaded profiles : ∀ k d d',
  loop k profiles d = (d', None) →
  ∀ p, p ∈ profiles → (source (FileName p)).2 = None.
Proof.
  induction profiles as [|q profiles IH]; intros k d d' Hrun p Hp.
  - by apply not_elem_of_nil in Hp.
  - rewrite getTemplateData_loop_cons in Hrun. cbv zeta in Hrun.
    destruct (source (FileName q)).2 as [err|] eqn:Hq; [discriminate|].
    apply elem_of_cons in Hp as [->|Hp]; [exact Hq|]. by eapply IH.
Qed.

End AssemblerRuns.

(** X10: when the profile parses and every source is found and read,
    [getTemplateData] returns exactly one entry per profile, in order: at
    position [k] the name of the profile, the source as read, unescaped,
    inside the [pre] element with the uncovered ranges, the percentage and
    the ID [k]; and the flag [Set]. *)
Theorem getTemplateData_report ParseProfiles filepath_Split filepath_Join build_Import
    ReadFile orders (profile : string) (profiles : list Profile) :
  ParseProfiles profile = (profiles, None) →
  Forall (λ p, (load filepath_Split filepath_Join build_Import ReadFile
                     (FileName p)).2 = None) profiles →
  getTemplateData ParseProfiles filepath_Split filepath_Join build_Import ReadFile
                  orders profile
  = (mkData (imap (file_of filepath_Split filepath_Join build_Import ReadFile orders)
                  profiles)
            (any_set profiles), None).
Proof.
  intros Hparse Hall. unfold getTemplateData. rewrite Hparse.
  rewrite getTemplateData_loop_all by (by apply Forall_forall). reflexivity.
Qed.

Lemma getTemplateData_report_witness :
  getTemplateData Sample.ParseProfiles Sample.filepath_Split Sample.filepath_Join
                  Sample.build_Import Sample.ReadFile Sample.orders "cover.out"
  = (mkData [mkFile "pkg/a.go" (html_format "1-5" "package pkg") 40 0;
             mkFile "pkg/b.go" (html_format "" "package pkg") 100 1] true, None).
Proof.
  apply (getTemplateData_report Sample.ParseProfiles Sample.filepath_Split
           Sample.filepath_Join Sample.build_Import Sample.ReadFile Sample.orders
           "cover.out" Sample.profiles).
  - reflexivity.
  - repeat constructor.
Defined.

(** X11: [getTemplateData] returns no error exactly when the profile parses
    and the source of every file profile is found and read. *)
Theorem getTemplateData_succeeds_iff ParseProfiles filepath_Split filepath_Join
    build_Import ReadFile orders (profile : string) :
  (getTemplateData ParseProfiles filepath_Split filepath_Join build_Import ReadFile
                   orders profile).2 = None
  ↔ (ParseProfiles profile).2 = None
    ∧ Forall (λ p, (load filepath_Split filepath_Join build_Import ReadFile
                         (FileName p)).2 = None) (ParseProfiles profile).1.
Proof.
  rewrite Forall_forall.
  unfold getTemplateData. destruct (ParseProfiles profile) as [profiles [err|]]; cbn [fst snd].
  - split; [discriminate|]. by intros [? _].
  - split.
    + intros Hrun. split; [done|].
      destruct (getTemplateData_loop _ _ _ _ _ _ _ _) as [d e] eqn:E.
      cbn in Hrun. subst e. by eapply getTemplateData_loop_loaded.
    + intros [_ Hall]. by rewrite getTemplateData_loop_all.
Qed.

(** X12: when the source of a profile cannot be found or read, and those of
    the profiles before it can, [getTemplateData] returns that error together
    with the entries of the profiles before it; the flag [Set] already counts
    the mode of the profile that failed. *)
Theorem getTemplateData_first_failure ParseProfiles filepath_Split filepath_Join
    build_Import ReadFile orders (profile : string) (pre post : list Profile)
    (p : Profile) (err : error) :
  ParseProfiles profile = (pre ++ p :: post, None) →
  Forall (λ q, (load filepath_Split filepath_Join build_Import ReadFile
                     (FileName q)).2 = None) pre →
  (load filepath_Split filepath_Join build_Import ReadFile (FileName p)).2 = Some err →
  getTemplateData ParseProfiles filepath_Split filepath_Join build_Import ReadFile
                  orders profile
  = (mkData (imap (file_of filepath_Split filepath_Join build_Import ReadFile orders) pre)
            (any_set (pre ++ [p])), Some err).
Proof.
  intros Hparse Hpre Hp. unfold getTemplateData. rewrite Hparse.
  rewrite (getTemplateData_loop_first_error _ _ _ _ _ pre 0%nat _ p post err);
    [done|by apply Forall_forall|done].
Qed.

Lemma getTemplateData_first_failure_witness :
  getTemplateData Sample.ParseProfiles SampleOutput.filepath_Split_b
                  Sample.filepath_Join SampleOutput.build_Import_b Sample.ReadFile
                  Sample.orders "cover.out"
  = (mkData [mkFile "pkg/a.go" (html_format "1-5" "package pkg") 40 0] true,
     Some (CantFind "b.go" (ExternalError "cannot find package"))).
Proof.
  apply (getTemplateData_first_failure Sample.ParseProfiles
           SampleOutput.filepath_Split_b Sample.filepath_Join
           SampleOutput.build_Import_b Sample.ReadFile Sample.orders "cover.out"
           [mkProfile "pkg/a.go" "set" [mkBlock 1 0 5 0 3 0; mkBlock 6 0 10 0 2 1]] []
           (mkProfile "pkg/b.go" "set" [mkBlock 3 0 4 0 1 1])).
  - reflexivity.
  - repeat constructor.
  - reflexivity.
Defined.

(** X13: the aggregate of an assembled report is the mean of the percentages
    of the file profiles, in the order of the profile. *)
Theorem totalCoverage_of_report ParseProfiles filepath_Split filepath_Join build_Import
    ReadFile orders (profile : string) (profiles : list Profile) (d : templateData) :
  ParseProfiles profile = (profiles, None) →
  getTemplateData ParseProfiles filepath_Split filepath_Join build_Import ReadFile
                  orders profile = (d, None) →
  totalCoverage d = mean (percentCovered <$> profiles).
Proof.
  intros Hparse Hrun. rewrite totalCoverage_mean. f_equal.
  destruct (getTemplateData_ok _ _ _ _ _ _ _ _ _ Hparse Hrun) as [[Hlen Hfiles] _].
  apply list_eq. intros i. rewrite !list_lookup_fmap.
  destruct (profiles !! i) as [p|] eqn:Hp.
  - destruct (Hfiles i p Hp) as (f & -> & _ & _ & Hc). cbn. by rewrite Hc.
  - apply lookup_ge_None in Hp. rewrite (proj2 (lookup_ge_None _ _)) by lia. done.
Qed.

Lemma totalCoverage_of_report_witness :
  totalCoverage Sample.report = mean (percentCovered <$> Sample.profiles).
Proof.
  apply (totalCoverage_of_report Sample.ParseProfiles Sample.filepath_Split
           Sample.filepath_Join Sample.build_Import Sample.ReadFile Sample.orders
           "cover.out" Sample.profiles Sample.report); reflexivity.
Defined.

(** * The output *)

Section OutputFacts.

Variable ParseProfiles : string → list Profile * option error.
Variable filepath_Split : string → string * string.
Variable filepath_Join : string → string → string.
Variable build_Import : string → string * option error.
Variable ReadFile : string → string * option error.
Variable orders : nat → RangeOrder.
Variable ParseFiles : string → option error.
Variable Execute : tplVals → string * option error.
Variable TempDir : string → string → string * option error.
Variable os_Create : string → option error.
Variable Close : string → option error.
Variable GOOS : string.

Local Abbreviation data :=
  (getTemplateData ParseProfiles filepath_Split filepath_Join build_Import
                   ReadFile orders).
Local Abbreviation render := (getTemplate ReadFile ParseFiles Execute).
Local Abbreviation output :=
  (htmlOutput ParseProfiles filepath_Split filepath_Join build_Import ReadFile orders
              ParseFiles Execute TempDir os_Create Close GOOS).
Local Abbreviation outrun :=
  (output_run ParseProfiles filepath_Split filepath_Join build_Import ReadFile orders
              ParseFiles Execute TempDir os_Create Close GOOS).
Local Abbreviation name_of := (out_name filepath_Join TempDir).
Local Abbreviation tmp_of := (tmp_events TempDir).

(** The ways [getTemplate] ends. *)
Lemma getTemplate_cases buf d :
  (∃ e, render buf d = ([], IO.Panic e))
  ∨ (∃ e, render buf d = ([], IO.Return (Some e)))
  ∨ (∃ content r, render buf d = ([IO.Written buf content], IO.Return r)).
Proof.
  unfold getTemplate.
  destruct (ParseFiles _); [left; eauto|].
  repeat (destruct (ReadFile _) as [? [?|]]; [right; left; eauto|]).
  destruct (Execute _) as [content r]. right; right. by exists content, r.
Qed.

Lemma getTemplate_written buf d written r ev :
  render buf d = (written, r) → ev ∈ written → ∃ content, ev = IO.Written buf content.
Proof.
  intros Hr Hev.
  destruct (getTemplate_cases buf d) as [[e H]|[[e H]|(content & r' & H)]];
    rewrite H in Hr; injection Hr as <- <-.
  - by apply not_elem_of_nil in Hev.
  - by apply not_elem_of_nil in Hev.
  - apply list_elem_of_singleton in Hev. eauto.
Qed.

(** The ways [startBrowser] ends. *)
Lemma startBrowser_cases cmd_Start url :
  (∃ name args, startBrowser GOOS cmd_Start url
                = ([IO.Started name (args ++ [url])], IO.Return true))
  ∨ startBrowser GOOS cmd_Start url = ([], IO.Return false).
Proof.
  unfold startBrowser. destruct (cmd_Start _ _); [by right|]. left. eauto.
Qed.

(** Every run of [htmlOutput] is one of the six of [output_run]. *)
Lemma htmlOutput_run cmd_Start profile outfile :
  outrun cmd_Start profile outfile (output cmd_Start profile outfile).
Proof.
  unfold htmlOutput.
  destruct (data profile) as [d [err|]] eqn:Hrun; [by eapply run_data_error|].
  assert ((outfile = "" → (TempDir "" "cover").2 = None) →
    os_Create (name_of outfile) = None →
    outrun cmd_Start profile outfile
      (IO.bind (tmp_of outfile ++ [IO.Created (name_of outfile)],
                IO.Return (inl (name_of outfile)))
         (λ created : string + error,
            match created with
            | inr err => IO.ret (Some err)
            | inl out =>
                do err <- render out d ;
                do err <- match err with
                          | None => IO.emit (IO.Closed out) >> IO.ret (Close out)
                          | Some err => IO.ret (Some err)
                          end ;
                match err with
                | Some err => IO.ret (Some err)
                | None =>
                    (if String.eqb outfile "" then
                       do started <- startBrowser GOOS cmd_Start ("file://" +:+ out) ;
                       if started then IO.ret ()
                       else IO.emit (IO.Stderr ("HTML output written to " +:+ out
                                                +:+ newline))
                     else IO.ret ()) >>
                    IO.ret None
                end
            end))) as Hrest.
  { intros Hdir Hcreate. cbn [IO.bind].
    destruct (getTemplate_cases (name_of outfile) d)
      as [[e Hr]|[[e Hr]|(content & r & Hr)]]; rewrite Hr;
      [| |destruct r as [e|]]; cbn [IO.bind IO.ret].
    - rewrite ?app_nil_r. by eapply run_render.
    - rewrite ?app_nil_r. by eapply run_render.
    - rewrite ?app_nil_r, <- ?app_assoc. by eapply run_render.
    - destruct (Close (name_of outfile)) as [err|] eqn:Hclose;
        cbn [IO.bind IO.ret IO.emit].
      + rewrite ?app_nil_r, <- ?app_assoc. by eapply run_close_error.
      + destruct (String.eqb outfile "") eqn:Hout.
        * destruct (startBrowser_cases cmd_Start ("file://" +:+ name_of outfile))
            as [(name & args & Hsb)|Hsb]; rewrite Hsb; cbn [IO.bind IO.ret IO.emit];
            rewrite ?app_nil_r, <- ?app_assoc; cbn [app];
            eapply run_done with (d := d) (content := content); try done;
            rewrite ?Hout, ?Hsb; done.
        * cbn [IO.bind IO.ret IO.emit]. rewrite ?app_nil_r, <- ?app_assoc. cbn [app].
          eapply run_done with (d := d) (content := content) (fin := []);
            try done; rewrite ?Hout; done. }
  unfold out_name, tmp_events in *. destruct (String.eqb outfile "") eqn:Hout.
  - apply String.eqb_eq in Hout.
    destruct (TempDir "" "cover") as [dir [err|]] eqn:Htmp; cbn [fst] in *.
    { cbn. by eapply run_tempdir_error. }
    destruct (os_Create (filepath_Join dir "coverage.html")) as [err|] eqn:Hc.
    { cbn. rewrite ?app_nil_r.
      replace [IO.TempDirMade dir] with (tmp_of outfile)
        by (unfold tmp_events; subst outfile; cbn; by rewrite Htmp).
      eapply run_create_error with (d := d); [done|by rewrite Htmp|].
      unfold out_name. subst outfile. cbn. by rewrite Htmp. }
    apply Hrest; done.
  - destruct (os_Create outfile) as [err|] eqn:Hc.
    { cbn. replace [] with (tmp_of outfile) by (unfold tmp_events; by rewrite Hout).
      eapply run_create_error with (d := d); [done| |].
      - intros ->. discriminate.
      - unfold out_name. by rewrite Hout. }
    apply Hrest; [|done]. intros ->. discriminate.
Qed.

Lemma not_notice_tmp outfile ev : ev ∈ tmp_of outfile → is_notice ev = false.
Proof.
  unfold tmp_events. destruct (String.eqb outfile "").
  - intros H. apply list_elem_of_singleton in H. by subst.
  - intros H. by apply not_elem_of_nil in H.
Qed.


End OutputFacts.

Ltac output_runs H :=
  inversion H as [d err H0 Heq|d dir err H0 H1 H2 Heq|d err H0 Hd H1 Heq
                  |d written r H0 Hd Hc H1 H2 Heq
                  |d content err H0 Hd Hc H1 H2 Heq
                  |d content fin H0 Hd Hc H1 H2 H3 Heq].

(** X14: [getTemplate] reads the six assets in a fixed order; the first one
    that cannot be read ends it with that error, and nothing is written to
    the output file. *)
Theorem getTemplate_first_error (ReadFile : string → string * option error)
    (ParseFiles : string → option error) (Execute : tplVals → string * option error)
    (buf : string) (d : templateData) (i : nat) (name : string) (err : error) :
  ParseFiles HTMLTemplateFile = None →
  asset_files !! i = Some name →
  (∀ j other, (j < i)%nat → asset_files !! j = Some other → (ReadFile other).2 = None) →
  (ReadFile name).2 = Some err →
  getTemplate ReadFile ParseFiles Execute buf d = ([], IO.Return (Some err)).
Proof.
  intros Hparse Hi Hbefore Herr. unfold getTemplate. rewrite Hparse.
  destruct i as [|[|[|[|[|[|i]]]]]]; [..|discriminate]; injection Hi as <-;
    try pose proof (Hbefore 0%nat _ ltac:(lia) eq_refl) as B0;
    try pose proof (Hbefore 1%nat _ ltac:(lia) eq_refl) as B1;
    try pose proof (Hbefore 2%nat _ ltac:(lia) eq_refl) as B2;
    try pose proof (Hbefore 3%nat _ ltac:(lia) eq_refl) as B3;
    try pose proof (Hbefore 4%nat _ ltac:(lia) eq_refl) as B4;
    clear Hbefore;
    repeat (match goal with
            | |- context [ReadFile ?f] =>
                let E := fresh "E" in
                destruct (ReadFile f) as [? [?|]] eqn:E; cbn [snd] in *;
                try discriminate
            end);
    by injection Herr as ->.
Qed.

Lemma getTemplate_first_error_witness :
  getTemplate SampleOutput.ReadFile_no_prismJS SampleOutput.ParseFiles
              SampleOutput.Execute "out.html" Sample.report
  = ([], IO.Return (Some (ExternalError "no such file"))).
Proof.
  apply (getTemplate_first_error SampleOutput.ReadFile_no_prismJS
           SampleOutput.ParseFiles SampleOutput.Execute "out.html" Sample.report
           1 PrismJS (ExternalError "no such file")).
  - reflexivity.
  - reflexivity.
  - intros [|j] other Hj Hother; [|lia]. injection Hother as <-. reflexivity.
  - reflexivity.
Defined.

(** X15: given an output path, [htmlOutput] touches that file and nothing
    else: it makes no temporary directory, starts no browser and prints
    nothing, whatever the collaborators answer. *)
Theorem htmlOutput_given_outfile ParseProfiles filepath_Split filepath_Join build_Import
    ReadFile orders ParseFiles Execute TempDir os_Create Close GOOS cmd_Start
    (profile outfile : string) (ev : IO.event) :
  outfile ≠ "" →
  ev ∈ IO.events (htmlOutput ParseProfiles filepath_Split filepath_Join build_Import
                    ReadFile orders ParseFiles Execute TempDir os_Create Close GOOS
                    cmd_Start profile outfile) →
  ev = IO.Created outfile ∨ (∃ content, ev = IO.Written outfile content)
  ∨ ev = IO.Closed outfile.
Proof.
  intros Hne Hev.
  assert (String.eqb outfile "" = false) as Hout by by apply String.eqb_neq.
  pose proof (htmlOutput_run ParseProfiles filepath_Split filepath_Join build_Import
                ReadFile orders ParseFiles Execute TempDir os_Create Close GOOS
                cmd_Start profile outfile) as Hrun.
  unfold IO.events in Hev.
  assert (out_name filepath_Join TempDir outfile = outfile) as Hname
    by (unfold out_name; by rewrite Hout).
  assert (tmp_events TempDir outfile = []) as Htmp
    by (unfold tmp_events; by rewrite Hout).
  output_runs Hrun; rewrite <- Heq in Hev; cbn [fst] in Hev;
    rewrite ?Hname, ?Htmp, ?Hout in *; subst; cbn [app] in Hev.
  - by apply not_elem_of_nil in Hev.
  - done.
  - by apply not_elem_of_nil in Hev.
  - apply elem_of_cons in Hev as [->|Hev]; [by left|].
    right; left. by eapply getTemplate_written.
  - repeat (apply elem_of_cons in Hev as [->|Hev]; [eauto|]).
    by apply not_elem_of_nil in Hev.
  - repeat (apply elem_of_cons in Hev as [->|Hev]; [eauto|]).
    by apply not_elem_of_nil in Hev.
Qed.

Lemma htmlOutput_given_outfile_witness :
  IO.Closed "out.html" = IO.Created "out.html"
  ∨ (∃ content, IO.Closed "out.html" = IO.Written "out.html" content)
  ∨ IO.Closed "out.html" = IO.Closed "out.html".
Proof.
  apply (htmlOutput_given_outfile Sample.ParseProfiles Sample.filepath_Split
           Sample.filepath_Join Sample.build_Import Sample.ReadFile Sample.orders
           SampleOutput.ParseFiles SampleOutput.Execute SampleOutput.TempDir
           SampleOutput.os_Create SampleOutput.Close SampleOutput.GOOS
           SampleOutput.cmd_Start "cover.out" "out.html" (IO.Closed "out.html")).
  - discriminate.
  - vm_compute. do 2 right. left.
Defined.

(** X16: the browser is started, or the message about the written file is
    printed, only when no output path was given and only as the last thing
    of a run that returns no error, after the file has been closed. *)
Theorem htmlOutput_notice ParseProfiles filepath_Split filepath_Join build_Import
    ReadFile orders ParseFiles Execute TempDir os_Create Close GOOS cmd_Start
    (profile outfile : string) (ev : IO.event) :
  let run := htmlOutput ParseProfiles filepath_Split filepath_Join build_Import
               ReadFile orders ParseFiles Execute TempDir os_Create Close GOOS
               cmd_Start profile outfile in
  ev ∈ IO.events run → is_notice ev = true →
  outfile = "" ∧ IO.result run = IO.Return None
  ∧ last (IO.events run) = Some ev
  ∧ IO.Closed (out_name filepath_Join TempDir outfile) ∈ IO.events run.
Proof.
  intros run Hev Hnotice. subst run.
  pose proof (htmlOutput_run ParseProfiles filepath_Split filepath_Join build_Import
                ReadFile orders ParseFiles Execute TempDir os_Create Close GOOS
                cmd_Start profile outfile) as Hrun.
  unfold IO.events, IO.result in *.
  assert (ev ∉ tmp_events TempDir outfile) as Htmp.
  { intros H. apply not_notice_tmp in H. congruence. }
  output_runs Hrun; rewrite <- Heq in *; cbn [fst snd] in *.
  - by apply not_elem_of_nil in Hev.
  - by apply not_elem_of_nil in Hev.
  - done.
  - apply elem_of_app in Hev as [Hev|Hev]; [done|].
    apply elem_of_cons in Hev as [->|Hev]; [done|].
    destruct (getTemplate_written _ _ _ _ _ _ _ _ H1 Hev) as [c ->]. done.
  - apply elem_of_app in Hev as [Hev|Hev]; [done|].
    repeat (apply elem_of_cons in Hev as [->|Hev]; [done|]).
    by apply not_elem_of_nil in Hev.
  - assert (ev ∈ fin) as Hfin.
    { apply elem_of_app in Hev as [Hev|Hev]; [done|].
      repeat (apply elem_of_cons in Hev as [->|Hev]; [done|]). done. }
    destruct (String.eqb outfile "") eqn:Hout;
      [|subst fin; by apply not_elem_of_nil in Hfin].
    assert (fin = [ev]) as ->.
    { subst fin.
      destruct (startBrowser_cases GOOS cmd_Start
                  ("file://" +:+ out_name filepath_Join TempDir outfile))
        as [(name & args & Hsb)|Hsb]; rewrite Hsb in Hfin |- *;
        apply list_elem_of_singleton in Hfin; by subst. }
    split; [by apply String.eqb_eq|]. split; [done|]. split.
    + match goal with
      | |- last (?tmp ++ ?a :: ?b :: ?c :: [ev]) = _ =>
          change (tmp ++ a :: b :: c :: [ev]) with (tmp ++ [a; b; c] ++ [ev])
      end.
      rewrite app_assoc. apply last_snoc.
    + apply elem_of_app. right. do 2 right. left.
Qed.

Lemma htmlOutput_notice_witness :
  "" = "" ∧ IO.result (SampleOutput.run "") = IO.Return None
  ∧ last (IO.events (SampleOutput.run ""))
    = Some (IO.Started "xdg-open" ["file:///tmp/cover123/coverage.html"])
  ∧ IO.Closed "/tmp/cover123/coverage.html" ∈ IO.events (SampleOutput.run "").
Proof.
  apply (htmlOutput_notice Sample.ParseProfiles Sample.filepath_Split
           Sample.filepath_Join Sample.build_Import Sample.ReadFile Sample.orders
           SampleOutput.ParseFiles SampleOutput.Execute SampleOutput.TempDir
           SampleOutput.os_Create SampleOutput.Close SampleOutput.GOOS
           SampleOutput.cmd_Start "cover.out" ""
           (IO.Started "xdg-open" ["file:///tmp/cover123/coverage.html"])).
  - vm_compute. do 4 right. left.
  - reflexivity.
Defined.

(** X17: whether the browser starts has no influence on what [htmlOutput]
    returns: failing to start it is not an error. *)
Theorem htmlOutput_result_ignores_browser ParseProfiles filepath_Split filepath_Join
    build_Import ReadFile orders ParseFiles Execute TempDir os_Create Close GOOS
    (cmd_Start cmd_Start' : string → list string → option error)
    (profile outfile : string) :
  IO.result (htmlOutput ParseProfiles filepath_Split filepath_Join build_Import
               ReadFile orders ParseFiles Execute TempDir os_Create Close GOOS
               cmd_Start profile outfile)
  = IO.result (htmlOutput ParseProfiles filepath_Split filepath_Join build_Import
                 ReadFile orders ParseFiles Execute TempDir os_Create Close GOOS
                 cmd_Start' profile outfile).
Proof.
  pose proof (htmlOutput_run ParseProfiles filepath_Split filepath_Join build_Import
                ReadFile orders ParseFiles Execute TempDir os_Create Close GOOS
                cmd_Start profile outfile) as Hrun.
  pose proof (htmlOutput_run ParseProfiles filepath_Split filepath_Join build_Import
                ReadFile orders ParseFiles Execute TempDir os_Create Close GOOS
                cmd_Start' profile outfile) as Hrun'.
  unfold IO.result.
  inversion Hrun; inversion Hrun'; cbn [snd]; try congruence;
    repeat match goal with
           | H : ?o = "" → _, E : ?o = "" |- _ => specialize (H E)
           | H : (?t).2 = _, E : ?t = _ |- _ => rewrite E in H; cbn [snd] in H
           end; congruence.
Qed.



(** X19: without the flag [-p], [main] prints the usage and exits with
    status 1; with it, when the report cannot be assembled (the profile does
    not parse, or a source is not found or not read), [main] panics with that
    error before any file is created. *)
Theorem main_without_report ParseProfiles filepath_Split filepath_Join build_Import
    ReadFile orders ParseFiles Execute TempDir os_Create Close GOOS cmd_Start
    (out : string) :
  main ParseProfiles filepath_Split filepath_Join build_Import ReadFile orders
       ParseFiles Execute TempDir os_Create Close GOOS cmd_Start "" out
  = ([IO.Usage], IO.Exit 1)
  ∧ ∀ profile d err,
      profile ≠ "" →
      getTemplateData ParseProfiles filepath_Split filepath_Join build_Import
                      ReadFile orders profile = (d, Some err) →
      main ParseProfiles filepath_Split filepath_Join build_Import ReadFile orders
           ParseFiles Execute TempDir os_Create Close GOOS cmd_Start profile out
      = ([], IO.Panic err).
Proof.
  split; [reflexivity|]. intros profile d err Hne Hrun.
  unfold main, htmlOutput. apply String.eqb_neq in Hne. rewrite Hne, Hrun.
  reflexivity.
Qed.
